(** * Azure service usage analyzer: aggregation and comparison core

    A shallow embedding of the data path of [new_azure_service_analyzer.py]
    (and of its twin methods in [azure_analyzer_gui_new.py], whose bodies are
    the same statement for statement):

    - [analyze_azure_services]: cleaning of the rows and accumulation into the
      nested dictionary category -> subcategory -> unit -> total;
    - [calculate_category_totals];
    - [compare_service_data];
    - the side-by-side rendering loop of [display_dual_service_comparison];
    - the detailed comparison tables of [generate_comparison_pdf];
    - [display_service_analysis], the counts and the service changes of the
      summaries, [main], and the error texts of the window.

    Python dictionaries are finite maps ([gmap]) keyed by strings, Python sets
    are [gset]s, [sorted] is a merge sort for the code point order of strings,
    [None] is the [None] of an [option], and an exception is the [Raise]
    branch of a result type.  Strings are sequences of code points below 256.
    Amounts are IEEE 754 binary64 numbers, as Python's [float] and numpy's
    [float64] are; the code is written once over the arithmetic interface
    [Arith], and run on [Binary64.float] and, for comparison, on exact
    integers.  Formatting of numbers, parsing of text by pandas and the
    markup parser of reportlab's [Paragraph] are parameters.

    The dictionaries of the model have texts for keys.  The code takes the
    cell of the category column itself for key, so the model is the code on
    files whose category column holds texts; where a statement brings the
    keys of two files together, it says so. *)

From Stdlib Require Import ZArith Ascii String Floats.SpecFloat.
From stdpp Require Import gmap strings sorting list fin_maps pretty.

Local Open Scope string_scope.
Local Open Scope list_scope.

(** ** Arithmetic *)

(** What the code asks of a number: the zero a [defaultdict(float)] and a
    loop counter start from, [+=], [-], the NaN test behind [dropna], and the
    test [change > 0]. *)
Class Arith (A : Type) := {
  zero : A;
  add : A → A → A;
  sub : A → A → A;
  isnan : A → bool;
  gt0 : A → bool
}.

(** Arithmetic without rounding. *)
Class ExactArith (A : Type) `{Arith A} := {
  add_comm : ∀ x y : A, add x y = add y x;
  add_assoc : ∀ x y z : A, add x (add y z) = add (add x y) z;
  add_zero_l : ∀ x : A, add zero x = x
}.

Module Binary64.
Definition prec : Z := 53.
Definition emax : Z := 1024.
Definition float : Type := spec_float.

(** The float nearest to an integer (ties to even). *)
Definition of_Z (z : Z) : float := binary_normalize prec emax z 0 false.

(** [p * 2^n] for [0 <= n]: a mantissa with [n] zero bits below it. *)
Definition shl (p : positive) (n : Z) : positive :=
  match n with Zpos q => Pos.iter xO p q | _ => p end.

Definition is_nan (x : float) : bool :=
  match x with S754_nan => true | _ => false end.

#[export] Instance float_arith : Arith float := {|
  zero := S754_zero false;
  add := SFadd prec emax;
  sub := SFsub prec emax;
  isnan := is_nan;
  gt0 x := SFltb (S754_zero false) x
|}.
End Binary64.

Module Exact.
#[export] Instance Z_arith : Arith Z := {|
  zero := 0%Z;
  add := Z.add;
  sub := Z.sub;
  isnan _ := false;
  gt0 x := (0 <? x)%Z
|}.

#[export] Instance Z_exact : ExactArith Z.
Proof. split; simpl; intros; lia. Qed.
End Exact.

(** An integer together with a budget for its absolute value; both add up. *)
Module Weighted.
#[export] Instance weighted_arith : Arith (Z * Z) := {|
  zero := (0, 0)%Z;
  add p q := (p.1 + q.1, p.2 + q.2)%Z;
  sub p q := (p.1 - q.1, p.2 + q.2)%Z;
  isnan _ := false;
  gt0 p := (0 <? p.1)%Z
|}.

#[export] Instance weighted_exact : ExactArith (Z * Z).
Proof.
  split; intros; unfold add; simpl; try destruct x; simpl; f_equal; lia.
Qed.
End Weighted.

(** ** Strings *)

(** [str.isspace] on the code points below 256. *)
Definition is_space (c : ascii) : bool :=
  let n := N_of_ascii c in
  ((9 <=? n) && (n <=? 13) || (28 <=? n) && (n <=? 32)
   || (n =? 133) || (n =? 160))%N.

Fixpoint lstrip (s : string) : string :=
  match s with
  | "" => ""
  | String c s' => if is_space c then lstrip s' else s
  end.

Fixpoint rstrip (s : string) : string :=
  match s with
  | "" => ""
  | String c s' =>
      match rstrip s' with
      | "" => if is_space c then "" else String c ""
      | r => String c r
      end
  end.

(** [s.strip()] *)
Definition strip (s : string) : string := rstrip (lstrip s).

Definition first_char (s : string) : option ascii :=
  match s with "" => None | String c _ => Some c end.

Fixpoint last_char (s : string) : option ascii :=
  match s with
  | "" => None
  | String c "" => Some c
  | String _ s' => last_char s'
  end.

(** Neither the first nor the last character is white space. *)
Definition trimmed (s : string) : Prop :=
  (∀ c, first_char s = Some c → is_space c = false) ∧
  (∀ c, last_char s = Some c → is_space c = false).

(** ** Rows *)

(** A cell of an object column of the frame [pd.read_csv] returns: missing
    (NaN) or text.  The code reads the cells of the subcategory and unit
    columns through [str], so a cell of another type stands here as the text
    [str] gives for it.  The cell of the category column is the key as it
    is: for a column of texts the key is the text; for a column of numbers
    the keys are the numbers, which their texts tell apart within one frame
    (the two zeros aside) but which differ from every text, compare by
    value and cannot be sorted together with texts ([keys] below). *)
Inductive cell := NaN | Str (s : string).

Global Instance cell_eq_dec : EqDecision cell.
Proof. solve_decision. Defined.

(** [str(v)] *)
Definition py_str (v : cell) : string :=
  match v with NaN => "nan" | Str s => s end.

(** A cell of the column [total]: missing, a number, or text. *)
Inductive tcell (A : Type) := TNaN | TNum (x : A) | TStr (s : string).
Global Arguments TNaN {A}.
Global Arguments TNum {A} x.
Global Arguments TStr {A} s.

Record row (A : Type) := Row {
  service_category : cell;
  service_sub_category : cell;
  service_unit : cell;
  total : tcell A
}.
Global Arguments Row {A} _ _ _ _.
Global Arguments service_category {A} _.
Global Arguments service_sub_category {A} _.
Global Arguments service_unit {A} _.
Global Arguments total {A} _.

(** What the loop accumulates for one row. *)
Record entry (A : Type) := Entry {
  e_category : string;
  e_subcategory : string;
  e_unit : string;
  e_amount : A
}.
Global Arguments Entry {A} _ _ _ _.
Global Arguments e_category {A} _.
Global Arguments e_subcategory {A} _.
Global Arguments e_unit {A} _.
Global Arguments e_amount {A} _.

(** ** Exceptions *)

Inductive exn := TypeError | KeyError | AttributeError | ValueError.

Inductive result (T : Type) := Ok (x : T) | Raise (e : exn).
Global Arguments Ok {T} x.
Global Arguments Raise {T} e.

Global Instance result_ret : MRet result := λ T x, Ok x.
Global Instance result_bind : MBind result := λ T U f r,
  match r with Ok x => f x | Raise e => Raise e end.

(** A loop body run over a list; the first exception ends the loop. *)
Fixpoint for_each {X Y : Type} (body : X → result Y) (l : list X)
  : result (list Y) :=
  match l with
  | [] => Ok []
  | x :: l' => y ← body x; ys ← for_each body l'; Ok (y :: ys)
  end.

(** ** Sets of keys *)

(** [sorted(s)] for a set of strings. *)
Definition sorted (s : gset string) : list string :=
  merge_sort String.le (elements s).

(** ** Report lines *)

(** The lines [display_dual_service_comparison] writes in a column, by their
    format: the category heading, the heading of a category the old file does
    not have, a subcategory, a unit with its total, the category total, the
    place holder of a missing category, and the empty line that pads the
    shorter column. *)
Inductive line (A : Type) :=
  | LCategory (category : string)
  | LCategoryNew (category : string)
  | LSubcategory (subcategory : string)
  | LUnit (unit : string) (total_amount : A)
  | LTotal (total : A)
  | LMissing (category : string)
  | LEmpty
  | LRule.
Global Arguments LCategory {A} _.
Global Arguments LCategoryNew {A} _.
Global Arguments LSubcategory {A} _.
Global Arguments LUnit {A} _ _.
Global Arguments LTotal {A} _.
Global Arguments LMissing {A} _.
Global Arguments LEmpty {A}.
Global Arguments LRule {A}.

(** A row of a comparison table before formatting. *)
Record unit_change (A : Type) := UnitChange {
  uc_unit : string;
  uc_old : A;
  uc_new : A;
  uc_change : A
}.
Global Arguments UnitChange {A} _ _ _ _.
Global Arguments uc_unit {A} _.
Global Arguments uc_old {A} _.
Global Arguments uc_new {A} _.
Global Arguments uc_change {A} _.

(** The lines of the service changes: of the section of
    [display_dual_service_comparison] and of the paragraphs of
    [generate_comparison_pdf]. *)
Inductive change_line :=
  | CHeading
  | CMissing (n : nat)
  | CAdded (n : nat)
  | CService (service : string)
  | CNoMissing
  | CNoAdded
  | CNoChanges.

(** [if l:] for a list *)
Definition nonempty {X : Type} (l : list X) : bool :=
  match l with
  | [] => false
  | _ :: _ => true
  end.

Section Analyzer.
Context {A : Type} `{Arith A}.

(** The number [pd.to_numeric] reads in a text cell, if it reads one. *)
Variable parse : string → option A.

(** [f"{x:,.2f}"] *)
Variable fmt2 : A → string.

(** Whether [Paragraph] of reportlab takes a text that holds the name
    behind a constant prefix: it reads the text as markup when it is made
    and raises [ValueError] where the markup does not parse. *)
Variable markup_ok : string → bool.

Abbreviation units_map := (gmap string A).
Abbreviation subcategory_map := (gmap string (gmap string A)).
Abbreviation aggregate := (gmap string (gmap string (gmap string A))).

(** [pd.to_numeric(.., errors='coerce')] followed by
    [dropna(subset=['total'])]: [None] is a cell that became NaN, whose row
    is dropped. *)
Definition to_numeric (t : tcell A) : option A :=
  match t with
  | TNaN => None
  | TNum x => if isnan x then None else Some x
  | TStr s =>
      match parse s with
      | Some x => if isnan x then None else Some x
      | None => None
      end
  end.

(** [str(v).strip() if str(v) != 'nan' and str(v).strip() else 'N/A'] *)
Definition key_or_na (v : cell) : string :=
  if bool_decide (py_str v ≠ "nan") && bool_decide (strip (py_str v) ≠ "")
  then strip (py_str v)
  else "N/A".

(** One row through the two [dropna] filters and the head of the loop
    body. *)
Definition normalize (r : row A) : option (entry A) :=
  match service_category r with
  | NaN => None
  | Str category =>
      match to_numeric (total r) with
      | None => None
      | Some total =>
          Some (Entry category (key_or_na (service_sub_category r))
                      (key_or_na (service_unit r)) total)
      end
  end.

(** The rows the loop visits. *)
Definition df_clean (df : list (row A)) : list (entry A) :=
  omap normalize df.

(** [service_data[category][subcategory][unit] += total] on nested
    [defaultdict]s: each level is read with its default and written
    back. *)
Definition add_entry (service_data : aggregate) (e : entry A) : aggregate :=
  let subcategories := default ∅ (service_data !! e_category e) in
  let units := default ∅ (subcategories !! e_subcategory e) in
  let current := default zero (units !! e_unit e) in
  <[e_category e :=
      <[e_subcategory e :=
          <[e_unit e := add current (e_amount e)]> units]> subcategories]>
    service_data.

Definition aggregate_entries (entries : list (entry A)) : aggregate :=
  foldl add_entry ∅ entries.

Definition analyze_azure_services (df : list (row A)) : aggregate :=
  aggregate_entries (df_clean df).

Definition lookup3 (service_data : aggregate) (c s u : string) : option A :=
  match service_data !! c with
  | Some subcategories =>
      match subcategories !! s with
      | Some units => units !! u
      | None => None
      end
  | None => None
  end.

(** The two inner loops of [calculate_category_totals].  Python visits the
    keys of a dictionary in the order of their insertion, [map_fold] in an
    order of its own; the two differ only in the order in which the same
    totals are added. *)
Definition units_total (acc : A) (units : units_map) : A :=
  map_fold (λ _ total_amount acc, add acc total_amount) acc units.

Definition category_total (subcategories : subcategory_map) : A :=
  map_fold (λ _ units acc, units_total acc units) zero subcategories.

Definition calculate_category_totals (service_data : aggregate)
  : gmap string A :=
  category_total <$> service_data.

(** [sum(d.values())], the values added one by one from 0. *)
Definition sum_values (d : gmap string A) : A :=
  map_fold (λ _ x acc, add acc x) zero d.

(** [sum] of a list of amounts, added one by one from 0. *)
Definition sum_list (l : list A) : A := foldl add zero l.

(** *** Comparison *)

(** [if data:] for an argument that is a dictionary or [None]. *)
Definition truthy (data : option aggregate) : bool :=
  match data with
  | Some d => bool_decide (size d ≠ 0)
  | None => false
  end.

(** [set(data.keys()) if data else set()] *)
Definition categories_of (data : option aggregate) : gset string :=
  match data with
  | Some d => if truthy data then dom d else ∅
  | None => ∅
  end.

Definition compare_service_data (old_data new_data : option aggregate)
  : list string * list string :=
  let old_categories := categories_of old_data in
  let new_categories := categories_of new_data in
  let missing_services := old_categories ∖ new_categories in
  let added_services := new_categories ∖ old_categories in
  (sorted missing_services, sorted added_services).

(** [calculate_category_totals(data) if data else {}] *)
Definition totals_of (data : option aggregate) : gmap string A :=
  match data with
  | Some d => if truthy data then calculate_category_totals d else ∅
  | None => ∅
  end.

(** [category in data] *)
Definition py_in (category : string) (data : option aggregate)
  : result bool :=
  match data with
  | Some d => Ok (bool_decide (category ∈ dom d))
  | None => Raise TypeError
  end.

(** [data[category]] *)
Definition py_item (data : option aggregate) (category : string)
  : result subcategory_map :=
  match data with
  | Some d =>
      match d !! category with
      | Some subcategories => Ok subcategories
      | None => Raise KeyError
      end
  | None => Raise TypeError
  end.

(** The lines of one column for a category the file has: heading,
    subcategories and units in sorted order, total.  The keys come from the
    dictionaries they index, so the subscripts are defined. *)
Definition column (heading : line A) (subcategories : subcategory_map)
    (total : A) : list (line A) :=
  heading ::
  (sorted (dom subcategories) ≫= λ subcategory,
     let units := default ∅ (subcategories !! subcategory) in
     LSubcategory subcategory ::
     ((λ unit, LUnit unit (default zero (units !! unit)))
        <$> sorted (dom units)))
  ++ [LTotal total].

Definition left_content (old_data : option aggregate)
    (old_totals : gmap string A) (category : string)
  : result (list (line A)) :=
  in_old ← py_in category old_data;
  if in_old : bool then
    subcategories ← py_item old_data category;
    Ok (column (LCategory category) subcategories
               (default zero (old_totals !! category)))
  else Ok [LMissing category].

Definition right_content (old_data new_data : option aggregate)
    (new_totals : gmap string A) (category : string)
  : result (list (line A)) :=
  in_new ← py_in category new_data;
  if in_new : bool then
    in_old ← py_in category old_data;
    subcategories ← py_item new_data category;
    Ok (column (if negb in_old then LCategoryNew category
                else LCategory category)
               subcategories (default zero (new_totals !! category)))
  else Ok [LMissing category].

(** The two columns printed line by line, the shorter one padded, and the
    rule that closes the block. *)
Definition side_by_side (left right : list (line A))
  : list (line A * line A) :=
  let max_lines := length left `max` length right in
  zip (left ++ replicate (max_lines - length left) LEmpty)
      (right ++ replicate (max_lines - length right) LEmpty)
  ++ [(LRule, LRule)].

(** The category loop of [display_dual_service_comparison]: what it prints,
    or the exception that ends it. *)
Definition display_dual_service_comparison
    (old_data new_data : option aggregate)
  : result (list (line A * line A)) :=
  let all_categories := categories_of old_data ∪ categories_of new_data in
  let sorted_categories := sorted all_categories in
  let old_totals := totals_of old_data in
  let new_totals := totals_of new_data in
  blocks ← for_each (λ category,
      left ← left_content old_data old_totals category;
      right ← right_content old_data new_data new_totals category;
      Ok (side_by_side left right)) sorted_categories;
  Ok (concat blocks).

(** [data.keys()] *)
Definition py_keys {V : Type} (data : option (gmap string V))
  : result (gset string) :=
  match data with
  | Some d => Ok (dom d)
  | None => Raise AttributeError
  end.

(** [data.get(key, {})] on a dictionary *)
Definition get_or_empty {V : Type} (d : gmap string (gmap string V))
    (key : string) : gmap string V :=
  default ∅ (d !! key).

(** The rows of one table of the detailed comparison: for each unit of
    either side, the old amount, the new amount and the change. *)
Definition unit_changes (old_sub_data new_sub_data : units_map)
  : list (unit_change A) :=
  (λ unit,
     let old_amount := default zero (old_sub_data !! unit) in
     let new_amount := default zero (new_sub_data !! unit) in
     let change := sub new_amount old_amount in
     UnitChange unit old_amount new_amount change)
  <$> sorted (dom old_sub_data ∪ dom new_sub_data).

Definition table_row (r : unit_change A) : list string :=
  let change_str := fmt2 (uc_change r) in
  [uc_unit r; fmt2 (uc_old r); fmt2 (uc_new r);
   if gt0 (uc_change r) then "+" +:+ change_str else change_str].

Definition table_data (old_sub_data new_sub_data : units_map)
  : list (list string) :=
  ["Unit"; "Old Amount"; "New Amount"; "Change"]
  :: (table_row <$> unit_changes old_sub_data new_sub_data).

(** [Paragraph(f".. {name}", style)]: the text is parsed as markup when the
    paragraph is made, and a text the parser refuses raises [ValueError].
    The code escapes no name, and the text before the name holds no markup,
    so whether the paragraph is made rests on the name. *)
Definition paragraph (name : string) : result string :=
  if markup_ok name then Ok name else Raise ValueError.

(** The bullets of a list of services, a [Paragraph] each. *)
Definition service_bullets (services : list string)
  : result (list change_line) :=
  for_each (λ service, text ← paragraph service; Ok (CService text))
           services.

(** The paragraphs on service changes of [generate_comparison_pdf]. *)
Definition story_service_changes (old_data new_data : option aggregate)
  : result (list change_line) :=
  let '(missing_services, added_services) :=
    compare_service_data old_data new_data in
  if nonempty missing_services || nonempty added_services then
    missing ←
      (if nonempty missing_services
       then bullets ← service_bullets missing_services;
            Ok (CMissing (length missing_services) :: bullets)
       else Ok []);
    added ←
      (if nonempty added_services
       then bullets ← service_bullets added_services;
            Ok (CAdded (length added_services) :: bullets)
       else Ok []);
    Ok (CHeading :: missing ++ added)
  else Ok [CNoChanges].

(** The detailed comparison of [generate_comparison_pdf]: for each category
    of either side and each of its subcategories, the heading, a
    [Paragraph], and the table. *)
Definition detailed_comparison (old_data new_data : option aggregate)
  : result (list (string * list (string * list (list string)))) :=
  old_keys ← py_keys old_data;
  new_keys ← py_keys new_data;
  let old_d := default ∅ old_data in
  let new_d := default ∅ new_data in
  let all_categories := sorted (old_keys ∪ new_keys) in
  for_each (λ category,
      heading ← paragraph category;
      let old_cat_data := get_or_empty old_d category in
      let new_cat_data := get_or_empty new_d category in
      let all_subcategories :=
        sorted (dom old_cat_data ∪ dom new_cat_data) in
      tables ← for_each (λ subcategory,
          heading ← paragraph subcategory;
          let old_sub_data := get_or_empty old_cat_data subcategory in
          let new_sub_data := get_or_empty new_cat_data subcategory in
          Ok (heading, table_data old_sub_data new_sub_data))
        all_subcategories;
      Ok (heading, tables))
    all_categories.

(** [generate_comparison_pdf] up to [doc.build]: the story it has built, of
    which the paragraphs on service changes and the detailed comparison are
    kept, or the exception that ends it.  The paragraphs of the title name
    the two files; the summary table between them and the service changes
    raises nothing and is left out, as are the spacers and the styles. *)
Definition generate_comparison_pdf (old_data new_data : option aggregate)
    (old_file_name new_file_name : string)
  : result (list change_line
            * list (string * list (string * list (list string)))) :=
  _ ← paragraph old_file_name;
  _ ← paragraph new_file_name;
  changes ← story_service_changes old_data new_data;
  sections ← detailed_comparison old_data new_data;
  Ok (changes, sections).

End Analyzer.

(** ** Vocabulary of the statements *)

(** Strictly ascending in the code point order. *)
Definition str_lt (s t : string) : Prop := String.le s t ∧ s ≠ t.

(** [category] is a key of the dictionary [data]; [None] has no keys. *)
Definition has_category {A : Type}
    (data : option (gmap string (gmap string (gmap string A))))
    (category : string) : Prop :=
  match data with
  | Some d => is_Some (d !! category)
  | None => False
  end.

(** A key of the second or third level in normal form: the sentinel, or a
    string that is not empty and has no white space at either end. *)
Definition good_key (k : string) : Prop :=
  k = "N/A" ∨ (k ≠ "" ∧ trimmed k).

(** The cases in which a subcategory or unit cell is replaced by the
    sentinel: missing, blank once trimmed, or the text of not-a-number. *)
Definition sentinel_case (v : cell) : Prop :=
  match v with
  | NaN => True
  | Str s => strip s = "" ∨ s = "nan"
  end.

(** The key the substitution rule prescribes for a cell. *)
Definition sentinel_rule (v : cell) (k : string) : Prop :=
  (sentinel_case v → k = "N/A") ∧
  (¬ sentinel_case v → k = strip (py_str v)).

(** Every key of the second and third level of a dictionary is in normal
    form. *)
Definition keys_ok {A : Type}
    (service_data : gmap string (gmap string (gmap string A))) : Prop :=
  ∀ c subcategories s units,
    service_data !! c = Some subcategories →
    subcategories !! s = Some units →
    good_key s ∧ ∀ u, is_Some (units !! u) → good_key u.

(** The triple of keys an entry is filed under. *)
Definition triple {A : Type} (e : entry A) : string * string * string :=
  (e_category e, e_subcategory e, e_unit e).

(** The category cell of a row is missing or blank. *)
Definition category_null_or_blank {A : Type} (r : row A) : Prop :=
  match service_category r with
  | NaN => True
  | Str s => strip s = ""
  end.

(** The rule that skips a row exactly when its category is missing or blank
    or its amount is not a number. *)
Definition skips_blank_categories {A : Type} `{Arith A}
    (parse : string → option A) (r : row A) : Prop :=
  normalize parse r = None ↔
  category_null_or_blank r ∨ to_numeric parse (total r) = None.

(** The parser of a [total] column that holds no text. *)
Definition no_text {A : Type} : string → option A := λ _, None.

(** [d[k] = f(d[k])] on a dictionary whose missing keys read as [dflt]. *)
Definition update_default {V : Type} (k : string) (f : V → V) (dflt : V)
    (d : gmap string V) : gmap string V :=
  <[k := f (default dflt (d !! k))]> d.

(** The sum of [g] over the values of a dictionary. *)
Definition msum {A V : Type} `{Arith A} (g : V → A) (d : gmap string V) : A :=
  map_fold (λ _ x acc, add acc (g x)) zero d.

(** The amounts of the rows that have a category and an amount that is a
    number, in the order of the rows. *)
Definition surviving_amounts {A : Type} `{Arith A}
    (parse : string → option A) (df : list (row A)) : list A :=
  omap (λ r, to_numeric parse (total r))
       (filter (λ r, service_category r ≠ NaN) df).

(** The entries filed under a triple, in the order of the input. *)
Definition entries_of {A : Type} (t : string * string * string)
    (es : list (entry A)) : list (entry A) :=
  filter (λ e, triple e = t) es.

(** Two entries may change places in the input: they are filed under
    different triples, or their amounts add up to the same number in either
    order. *)
Definition commute {A : Type} `{Arith A} (e1 e2 : entry A) : Prop :=
  triple e1 ≠ triple e2 ∨
  ∀ x, add (add x (e_amount e1)) (e_amount e2)
       = add (add x (e_amount e2)) (e_amount e1).

(** The permutations made of exchanges of neighbours that commute. *)
Inductive reorder {A : Type} `{Arith A} : relation (list (entry A)) :=
  | reorder_nil : reorder [] []
  | reorder_skip e l1 l2 : reorder l1 l2 → reorder (e :: l1) (e :: l2)
  | reorder_swap e1 e2 l :
      commute e1 e2 → reorder (e1 :: e2 :: l) (e2 :: e1 :: l)
  | reorder_trans l1 l2 l3 : reorder l1 l2 → reorder l2 l3 → reorder l1 l3.

(** *** Integer amounts in binary64 *)

(** The integer stays within its budget. *)
Definition budgeted (p : Z * Z) : Prop := (Z.abs p.1 ≤ p.2)%Z.

(** An integer with the least budget. *)
Definition weigh (k : Z) : Z * Z := (k, Z.abs k).

(** The number of the code for a budgeted integer. *)
Definition embed {A : Type} (φ : Z → A) (p : Z * Z) : A := φ p.1.

Definition entry_map {A B : Type} (h : A → B) (e : entry A) : entry B :=
  Entry (e_category e) (e_subcategory e) (e_unit e) (h (e_amount e)).

(** The entry with another amount. *)
Definition retag {A B : Type} (e : entry A) (x : B) : entry B :=
  Entry (e_category e) (e_subcategory e) (e_unit e) x.

(** The sum of the budgets of a list of entries. *)
Definition weight_sum (es : list (entry (Z * Z))) : Z :=
  foldr (λ e acc, (e_amount e).2 + acc)%Z 0%Z es.

(** The sum of the absolute values of a list of integers. *)
Definition abs_sum (ks : list Z) : Z :=
  foldr (λ k acc, Z.abs k + acc)%Z 0%Z ks.

(** Every total of a dictionary is within its budget, and the budget is at
    most [w]. *)
Definition leaves_bounded
    (service_data : gmap string (gmap string (gmap string (Z * Z))))
    (w : Z) : Prop :=
  ∀ c s u p, lookup3 service_data c s u = Some p →
             budgeted p ∧ (p.2 ≤ w)%Z.

(** The sum of the values of a list of budgeted entries. *)
Definition value_sum (es : list (entry (Z * Z))) : Z :=
  foldr (λ e acc, (e_amount e).1 + acc)%Z 0%Z es.

(** The sum of a list of integers. *)
Definition Z_sum (ks : list Z) : Z := foldr Z.add 0%Z ks.

(** ** Inputs of the examples *)

Import Binary64 Exact Weighted.

(** A row whose amount is the float of an integer. *)
Definition row64 (category : string) (subcategory unit : cell) (amount : Z)
  : row float :=
  Row (Str category) subcategory unit (TNum (of_Z amount)).

(** Three rows: two for the same triple, one without subcategory. *)
Definition scenario_rows : list (row float) :=
  [row64 "Compute" (Str "VM") (Str "Hours") 10;
   row64 "Compute" (Str "VM") (Str "Hours") 5;
   row64 "Storage" NaN (Str "GB") 3].

(** Amounts of which binary64 cannot hold every partial sum: [10^16 + 1]
    rounds to [10^16]. *)
Definition rounding_rows : list (row float) :=
  [row64 "A" (Str "x") (Str "u") 10000000000000000;
   row64 "B" (Str "x") (Str "u") 1;
   row64 "A" (Str "x") (Str "u") (-10000000000000000);
   row64 "C" (Str "x") (Str "u") 10000000000000000;
   row64 "C" (Str "x") (Str "u") 1;
   row64 "C" (Str "x") (Str "u") (-10000000000000000)].

Definition entry64 (category : string) (amount : Z) : entry float :=
  Entry category "VM" "Hours" (of_Z amount).

Definition rounding_entries : list (entry float) :=
  [entry64 "Compute" 10000000000000000;
   entry64 "Compute" 1;
   entry64 "Compute" (-10000000000000000)].

Definition rounding_entries_permuted : list (entry float) :=
  [entry64 "Compute" 10000000000000000;
   entry64 "Compute" (-10000000000000000);
   entry64 "Compute" 1].

(** A row whose category is three spaces. *)
Definition blank_category_row : row float :=
  row64 "   " (Str "VM") (Str "Hours") 5.

(** A row without subcategory and unit, and a row whose subcategory is
    blank, with the amount 5. *)
Definition null_subcategory_row : row float := row64 "Storage" NaN NaN 5.

Definition blank_subcategory_row : row float :=
  row64 "Storage" (Str "  ") (Str " GB ") 5.

Definition compute_only : gmap string (gmap string (gmap string float)) :=
  {[ "Compute" := {[ "VM" := {[ "Hours" := of_Z 15 ]} ]} ]}.

(** Integer amounts. *)
Definition rowZ (category : cell) (subcategory unit : cell) (amount : tcell Z)
  : row Z :=
  Row category subcategory unit amount.

Definition integer_rows : list (row Z) :=
  [rowZ (Str "Compute") (Str "VM") (Str " Hours ") (TNum 10%Z);
   rowZ NaN (Str "VM") (Str "Hours") (TNum 7%Z);
   rowZ (Str "Storage") NaN (Str "GB") (TNum 3%Z);
   rowZ (Str "Storage") (Str "Blob") (Str "GB") TNaN;
   rowZ (Str "Compute") (Str "VM") (Str "Hours") (TNum 5%Z)].

Definition old_integers : gmap string (gmap string (gmap string Z)) :=
  {[ "Compute" :=
       {[ "VM" := {[ "Hours" := 15%Z; "Days" := 2%Z; "GB" := 7%Z ]} ]} ]}.

Definition new_integers : gmap string (gmap string (gmap string Z)) :=
  {[ "Compute" :=
       {[ "VM" := {[ "Hours" := 10%Z; "Days" := 2%Z; "Seats" := 4%Z ]} ]} ]}.

(** Two decimals for an integer amount below 1000. *)
Definition fmt2_Z (z : Z) : string := pretty z +:+ ".00".

(** ** The single-file report, the summaries and the entry point *)

(** The lines of [display_service_analysis] that carry data, in the order in
    which they are printed; banners, rules and blank lines are left out.
    The twin [format_single_analysis] of the window collects the same lines
    for a dictionary. *)
Inductive report_line (A : Type) :=
  | RNoData
  | RCategory (category : string)
  | RSubcategory (subcategory : string)
  | RUnit (unit : string) (total_amount : A)
  | RSubcategoryTotal (subcategory_total : A)
  | RCategoryTotal (category_total : A)
  | RCategories (n : nat)
  | RSubcategories (n : nat)
  | RUnitTypes (n : nat)
  | RGrandTotal (grand_total : A)
  | RTop (rank : nat) (category : string) (total : A).
Global Arguments RNoData {A}.
Global Arguments RCategory {A} _.
Global Arguments RSubcategory {A} _.
Global Arguments RUnit {A} _ _.
Global Arguments RSubcategoryTotal {A} _.
Global Arguments RCategoryTotal {A} _.
Global Arguments RCategories {A} _.
Global Arguments RSubcategories {A} _.
Global Arguments RUnitTypes {A} _.
Global Arguments RGrandTotal {A} _.
Global Arguments RTop {A} _ _ _.

(** What [main] prints besides the reports; the title and the rules are
    left out. *)
Inductive message :=
  | MOldNotFound (old_csv_path : string)
  | MNewNotFound (new_csv_path : string)
  | MDualMode (old_csv_path new_csv_path : string)
  | MComparisonComplete
  | MComparisonFailed
  | MCsvNotFound (csv_file_path : string)
  | MSingleMode
  | MAnalysisComplete
  | MAnalysisFailed
  | MDefaultMode
  | MDefaultFailed
  | MUsage (program : string).

(** The output of [main], piece by piece; of the side-by-side display it
    holds the blocks of the category loop. *)
Inductive output (A : Type) :=
  | Print (m : message)
  | Comparison (old_file_name new_file_name : string)
      (blocks : list (line A * line A))
  | Analysis (lines : list (report_line A)).
Global Arguments Print {A} _.
Global Arguments Comparison {A} _ _ _.
Global Arguments Analysis {A} _.

(** What the cells of the category column of a frame are: [pd.read_csv]
    reads a column as numbers when every cell it has is a number, and as
    texts otherwise. *)
Inductive keys := Texts | Numbers.

Global Instance keys_eq_dec : EqDecision keys.
Proof. solve_decision. Defined.

(** What [pd.read_csv] makes of a path: [FileNotFoundError], another
    exception with its text, or a frame with its column names and what its
    category column holds.  The rows of a frame hold the cells under the
    four names the analysis reads. *)
Inductive csv (A : Type) :=
  | CsvNotFound
  | CsvError (text : string)
  | CsvFrame (columns : list string) (categories : keys)
      (df : list (row A)).
Global Arguments CsvNotFound {A}.
Global Arguments CsvError {A} _.
Global Arguments CsvFrame {A} _ _ _.

Definition required_columns : list string :=
  ["service_category"; "service_sub_category"; "service_unit"; "total"].

(** [[col for col in required_columns if col not in df.columns]] *)
Definition missing_columns (columns : list string) : list string :=
  filter (λ col, col ∉ columns) required_columns.

(** [str] of a list of column names. *)
Definition py_repr_list (l : list string) : string :=
  "[" +:+ String.concat ", " ((λ s, "'" +:+ s +:+ "'") <$> l) +:+ "]".

Section Reports.
Context {A : Type} `{Arith A}.

(** [x < y] on amounts, the comparison behind [sorted(.., key=..)]. *)
Variable ltb : A → A → bool.

(** The number [pd.to_numeric] reads in a text cell, if it reads one. *)
Variable parse : string → option A.

Local Abbreviation units_map := (gmap string A).
Local Abbreviation subcategory_map := (gmap string (gmap string A)).
Local Abbreviation aggregate := (gmap string (gmap string (gmap string A))).

(** *** [display_service_analysis] *)

(** The loop over the sorted units: the lines, and [subcategory_total]
    added up from 0 in that order. *)
Definition unit_lines (units : units_map) : list (report_line A) :=
  (λ unit, RUnit unit (default zero (units !! unit))) <$> sorted (dom units).

Definition subcategory_total (units : units_map) : A :=
  foldl (λ subcategory_total unit,
           add subcategory_total (default zero (units !! unit)))
        zero (sorted (dom units)).

Definition subcategory_lines (subcategory : string) (units : units_map)
  : list (report_line A) :=
  RSubcategory subcategory
  :: unit_lines units ++ [RSubcategoryTotal (subcategory_total units)].

(** The loop over the sorted subcategories: [category_total] is the sum of
    the subcategory totals. *)
Definition display_category_total (subcategories : subcategory_map) : A :=
  foldl (λ category_total subcategory,
           add category_total
               (subcategory_total
                  (default ∅ (subcategories !! subcategory))))
        zero (sorted (dom subcategories)).

Definition category_lines (category : string)
    (subcategories : subcategory_map) : list (report_line A) :=
  RCategory category
  :: (sorted (dom subcategories) ≫= λ subcategory,
        subcategory_lines subcategory
          (default ∅ (subcategories !! subcategory)))
  ++ [RCategoryTotal (display_category_total subcategories)].

(** The dictionary [category_totals] of the display, filled category by
    category in sorted order: its items in the order of their insertion. *)
Definition display_category_totals (service_data : aggregate)
  : list (string * A) :=
  (λ category,
     (category,
      display_category_total (default ∅ (service_data !! category))))
  <$> sorted (dom service_data).

(** [sum(len(subcats) for subcats in service_data.values())] *)
Definition total_subcategories (service_data : aggregate) : nat :=
  map_fold (λ _ subcats n, n + size subcats) 0 service_data.

(** [sum(len(units) for subcats in service_data.values()
                    for units in subcats.values())] *)
Definition total_unit_types (service_data : aggregate) : nat :=
  map_fold (λ _ subcats n,
              map_fold (λ _ units n, n + size units) n subcats)
           0 service_data.

(** [sorted(items, key=lambda x: x[1], reverse=True)]: a stable sort, the
    largest total first, items of equal total in the order they had.  This
    is Python's list whenever [<] orders the totals, that is when none of
    them is NaN. *)
Fixpoint insert_by_total (x : string * A) (l : list (string * A))
  : list (string * A) :=
  match l with
  | [] => [x]
  | y :: l' => if ltb x.2 y.2 then y :: insert_by_total x l' else x :: l
  end.

Definition sorted_by_total (items : list (string * A)) : list (string * A) :=
  foldr insert_by_total [] items.

(** [enumerate(sorted_by_total[:5], 1)] *)
Definition top_lines (items : list (string * A)) : list (report_line A) :=
  imap (λ i item, RTop (S i) item.1 item.2) (take 5 (sorted_by_total items)).

(** The grand total is [sum(category_totals.values())], the totals added
    one by one from 0; the correction term that [sum] carries for floats
    from Python 3.12 on is left out. *)
Definition display_service_analysis (service_data : option aggregate)
  : list (report_line A) :=
  if truthy service_data then
    let d := default ∅ service_data in
    let sorted_categories := sorted (dom d) in
    let category_totals := display_category_totals d in
    (sorted_categories ≫= λ category,
       category_lines category (default ∅ (d !! category)))
    ++ [RCategories (length sorted_categories);
        RSubcategories (total_subcategories d);
        RUnitTypes (total_unit_types d);
        RGrandTotal (sum_list category_totals.*2)]
    ++ top_lines category_totals
  else [RNoData].

(** *** The summaries of a comparison *)

(** [len(data) if data else 0] *)
Definition categories_count (data : option aggregate) : nat :=
  if truthy data then size (default ∅ data) else 0.

(** The section SERVICE CHANGES of [display_dual_service_comparison]. *)
Definition display_service_changes (old_data new_data : option aggregate)
  : list change_line :=
  let '(missing_services, added_services) :=
    compare_service_data old_data new_data in
  (if nonempty missing_services
   then CMissing (length missing_services) :: (CService <$> missing_services)
   else [CNoMissing])
  ++ (if nonempty added_services
      then CAdded (length added_services) :: (CService <$> added_services)
      else [CNoAdded]).

(** [display_dual_service_comparison] up to its section SERVICE CHANGES:
    the blocks of the category loop, then the lines of the section.  The
    summary between the two raises nothing and is left out. *)
Definition display_comparison_and_changes
    (old_data new_data : option aggregate)
  : result (list (line A * line A) * list change_line) :=
  blocks ← display_dual_service_comparison old_data new_data;
  Ok (blocks, display_service_changes old_data new_data).

(** *** From a file to the dictionary *)

(** [analyze_azure_services] of the command line, from the outcome of
    [pd.read_csv]: [None] for a file that cannot be read or lacks a
    column. *)
Definition analyze_csv (file : csv A) : option aggregate :=
  match file with
  | CsvNotFound => None
  | CsvError _ => None
  | CsvFrame columns _ df =>
      if nonempty (missing_columns columns) then None
      else Some (analyze_azure_services parse df)
  end.

(** *** [main] *)

(** [os.path.exists], [pd.read_csv] and [os.path.basename]: the files as
    [main] finds them. *)
Variable path_exists : string → bool.
Variable read_csv : string → csv A.
Variable basename : string → string.

Definition default_csv_path : string :=
  "attached_assets/az_usage_history_09_15_2025_6c16248dcada4756972a9859fedab0db_1758134557815.csv".

(** [if data is not None] *)
Definition is_not_None {X : Type} (data : option X) : bool :=
  match data with
  | Some _ => true
  | None => false
  end.

(** What the category column of a file holds, if the file is a frame. *)
Definition category_keys (file : csv A) : option keys :=
  match file with
  | CsvFrame _ categories _ => Some categories
  | _ => None
  end.

(** The dictionaries of two files have keys, and those of one are numbers
    and those of the other texts: [sorted(all_categories)] of the
    side-by-side display then raises [TypeError], as a number and a text
    have no order. *)
Definition mixed_keys (old_file new_file : csv A) : bool :=
  truthy (analyze_csv old_file) && truthy (analyze_csv new_file)
  && negb (bool_decide (category_keys old_file = category_keys new_file)).

(** Single file mode after the mode line; [failed] is the message of the
    [else] branch. *)
Definition analyze_and_display (csv_file_path : string) (failed : message)
  : list (output A) :=
  let service_data := analyze_csv (read_csv csv_file_path) in
  if truthy service_data
  then [Analysis (display_service_analysis service_data);
        Print MAnalysisComplete]
  else [Print failed].

(** [main] on [sys.argv = program :: args]: what it prints, or the
    exception that ends it. *)
Definition main (program : string) (args : list string)
  : result (list (output A)) :=
  match args with
  | [old_csv_path; new_csv_path] =>
      if negb (path_exists old_csv_path)
      then Ok [Print (MOldNotFound old_csv_path)]
      else if negb (path_exists new_csv_path)
      then Ok [Print (MNewNotFound new_csv_path)]
      else
        let old_service_data := analyze_csv (read_csv old_csv_path) in
        let new_service_data := analyze_csv (read_csv new_csv_path) in
        if is_not_None old_service_data && is_not_None new_service_data
        then
          blocks ←
            (if mixed_keys (read_csv old_csv_path) (read_csv new_csv_path)
             then Raise TypeError
             else display_dual_service_comparison
                    old_service_data new_service_data);
          Ok [Print (MDualMode old_csv_path new_csv_path);
              Comparison (basename old_csv_path) (basename new_csv_path)
                         blocks;
              Print MComparisonComplete]
        else Ok [Print (MDualMode old_csv_path new_csv_path);
                 Print MComparisonFailed]
  | [csv_file_path] =>
      if negb (path_exists csv_file_path)
      then Ok [Print (MCsvNotFound csv_file_path)]
      else Ok (Print MSingleMode
               :: analyze_and_display csv_file_path MAnalysisFailed)
  | _ =>
      if path_exists default_csv_path
      then Ok (Print MDefaultMode
               :: analyze_and_display default_csv_path MDefaultFailed)
      else Ok [Print (MUsage program)]
  end.

End Reports.

(** *** The analysis of the window *)

(** The methods of [AzureAnalyzerGUI] that differ from the functions of the
    command line. *)
Module AzureAnalyzerGUI.
Section GUI.
Context {A : Type} `{Arith A}.
Variable parse : string → option A.

Local Abbreviation aggregate := (gmap string (gmap string (gmap string A))).

(** The method [analyze_azure_services], from the outcome of [pd.read_csv]:
    the dictionary and the error message.  The dictionary is built by the
    same statements as on the command line. *)
Definition analyze_azure_services (csv_file_path : string) (file : csv A)
  : option aggregate * option string :=
  match file with
  | CsvNotFound => (None, Some ("File '" +:+ csv_file_path +:+ "' not found."))
  | CsvError text => (None, Some ("Error processing file: " +:+ text))
  | CsvFrame columns _ df =>
      if nonempty (missing_columns columns)
      then (None,
            Some ("Missing required columns: "
                  +:+ py_repr_list (missing_columns columns)))
      else (Some (analyze_azure_services parse df), None)
  end.

(** [if s:] for a string or [None] *)
Definition truthy_str (s : option string) : bool :=
  match s with
  | Some s => bool_decide (s ≠ "")
  | None => false
  end.

Definition newline : string := String "010" "".

(** What [run_analysis] shows when the analysis gave nothing:
    [error_msg or "Failed to analyze ..."]. *)
Definition single_error_text (error_msg : option string) : string :=
  if truthy_str error_msg then default "" error_msg
  else "Failed to analyze the CSV file. Please check the file format.".

(** The text of the [else] branch of [run_comparison]. *)
Definition comparison_error_text (old_error new_error : option string)
  : string :=
  let error_text := "Analysis errors:" +:+ newline in
  let error_text :=
    if truthy_str old_error
    then error_text +:+ "Old file: " +:+ default "" old_error +:+ newline
    else error_text in
  let error_text :=
    if truthy_str new_error
    then error_text +:+ "New file: " +:+ default "" new_error +:+ newline
    else error_text in
  if negb (truthy_str old_error) && negb (truthy_str new_error)
  then "Failed to analyze one or both CSV files. Please check the file formats."
  else error_text.

End GUI.
End AzureAnalyzerGUI.

(** *** Counts *)

(** The lengths the summaries add up are natural numbers, which add up
    without rounding. *)
Module Counting.
#[export] Instance nat_arith : Arith nat := {|
  zero := 0;
  add := Nat.add;
  sub := Nat.sub;
  isnan _ := false;
  gt0 n := bool_decide (0 < n)
|}.

#[export] Instance nat_exact : ExactArith nat.
Proof. split; simpl; intros; lia. Qed.
End Counting.

(** The category and subcategory an entry is filed under. *)
Definition pair_of {A : Type} (e : entry A) : string * string :=
  (e_category e, e_subcategory e).

(** The dictionary of the subcategories of a category and its second level
    read as one. *)
Definition lookup2 {A : Type}
    (service_data : gmap string (gmap string (gmap string A)))
    (c s : string) : option (gmap string A) :=
  match service_data !! c with
  | Some subcategories => subcategories !! s
  | None => None
  end.

(** The two columns of the block of a category when both arguments of the
    display are dictionaries. *)
Definition left_column {A : Type} `{Arith A}
    (old : gmap string (gmap string (gmap string A))) (category : string)
  : list (line A) :=
  match old !! category with
  | Some subcategories =>
      column (LCategory category) subcategories
             (default zero (calculate_category_totals old !! category))
  | None => [LMissing category]
  end.

Definition right_column {A : Type} `{Arith A}
    (old new : gmap string (gmap string (gmap string A)))
    (category : string) : list (line A) :=
  match new !! category with
  | Some subcategories =>
      column (match old !! category with
              | Some _ => LCategory category
              | None => LCategoryNew category
              end)
             subcategories
             (default zero (calculate_category_totals new !! category))
  | None => [LMissing category]
  end.

(** The argument of the display for which the test [category in data]
    raises: one file is [None] and the other has a category. *)
Definition one_sided {A : Type}
    (old_data new_data : option (gmap string (gmap string (gmap string A))))
  : Prop :=
  (old_data = None ∧ ∃ c, has_category new_data c) ∨
  (new_data = None ∧ ∃ c, has_category old_data c).

(** A file the analysis can use: a frame that has the four columns and a
    row with a category and an amount that is a number. *)
Definition usable {A : Type} `{Arith A} (parse : string → option A)
    (file : csv A) : Prop :=
  match file with
  | CsvFrame columns _ df =>
      missing_columns columns = [] ∧ df_clean parse df ≠ []
  | _ => False
  end.

(** A binary64 number that is neither an infinity nor NaN. *)
Definition finite (x : Binary64.float) : bool :=
  match x with
  | S754_zero _ | S754_finite _ _ _ => true
  | _ => false
  end.

(** [x] is listed before [y] in the ranking by total: its total is not
    less, and with totals that compare equal its name comes first. *)
Definition ranked {A : Type} (ltb : A → A → bool) (x y : string * A)
  : Prop :=
  ltb x.2 y.2 = false ∧ (ltb y.2 x.2 = false → str_lt x.1 y.1).

(** A file the analysis can read: a frame that has the four columns. *)
Definition readable {A : Type} (file : csv A) : Prop :=
  match file with
  | CsvFrame columns _ _ => missing_columns columns = []
  | _ => False
  end.

(** A row the analysis counts for a category: it has that text for
    category and an amount that is a number. *)
Definition usable_row {A : Type} `{Arith A} (parse : string → option A)
    (c : string) (r : row A) : Prop :=
  service_category r = Str c ∧ is_Some (to_numeric parse (total r)).

(** A file whose category column, if it has one, holds texts. *)
Definition text_categories {A : Type} (file : csv A) : Prop :=
  match file with
  | CsvFrame _ categories _ => categories = Texts
  | _ => True
  end.

(** [Paragraph] takes the names of the categories and subcategories of a
    dictionary. *)
Definition names_accepted {A : Type} (markup_ok : string → bool)
    (data : gmap string (gmap string (gmap string A))) : Prop :=
  ∀ c subcategories, data !! c = Some subcategories →
    markup_ok c = true ∧
    ∀ s, is_Some (subcategories !! s) → markup_ok s = true.

(** *** Files of the examples *)

(** The scenario under one path, a frame without rows under another, and
    nothing elsewhere. *)
Definition scenario_files (path : string) : csv Binary64.float :=
  if bool_decide (path = "usage.csv")
  then CsvFrame required_columns Texts scenario_rows
  else if bool_decide (path = "empty.csv")
  then CsvFrame required_columns Texts []
  else CsvNotFound.

Definition on_disk (path : string) : bool :=
  bool_decide (path = "usage.csv") || bool_decide (path = "empty.csv").

(** A file whose category column holds numbers, beside the scenario. *)
Definition numbered_rows : list (row Binary64.float) :=
  [row64 "10" (Str "VM") (Str "Hours") 4;
   row64 "9" (Str "VM") (Str "Hours") 2].

Definition mixed_files (path : string) : csv Binary64.float :=
  if bool_decide (path = "numbers.csv")
  then CsvFrame required_columns Numbers numbered_rows
  else scenario_files path.

Definition mixed_on_disk (path : string) : bool :=
  bool_decide (path = "numbers.csv") || on_disk path.

(** The texts of the examples in a [Paragraph]: a text without [<] holds no
    tag and is taken.  This stand-in refuses every text with [<], as
    reportlab refuses "A<B", whose tag never closes; reportlab takes a tag
    that is well formed. *)
Fixpoint no_tag (s : string) : bool :=
  match s with
  | EmptyString => true
  | String c s' => negb (Ascii.eqb c "<") && no_tag s'
  end.


(** Two decimals for a binary64 number that is an integer below 1000 in
    absolute value. *)
Definition fmt2_integer (x : Binary64.float) : string :=
  match x with
  | S754_zero s => if s then "-0.00" else "0.00"
  | S754_finite s m e =>
      (if s then "-" else "") +:+ pretty (Z.shiftl (Z.pos m) e) +:+ ".00"
  | S754_infinity s => if s then "-inf" else "inf"
  | S754_nan => "nan"
  end.

(** * Properties *)

(** ** The order of strings and [sorted] *)

(** [String.le] is the lexicographic order of the code points. *)
Lemma str_le_nil (s : string) : String.le "" s.
Proof. by destruct s. Qed.

Lemma str_le_cons (a b : ascii) (s t : string) :
  String.le (String a s) (String b t) ↔
  (N_of_ascii a < N_of_ascii b)%N ∨ (a = b ∧ String.le s t).
Proof.
  unfold String.le, String.leb. simpl. unfold Ascii.compare.
  destruct (N.compare_spec (N_of_ascii a) (N_of_ascii b)) as [Heq|Hlt|Hgt].
  - assert (a = b) as ->.
    { rewrite <- (ascii_N_embedding a), <- (ascii_N_embedding b).
      by rewrite Heq. }
    split; [by right|]. intros [Hlt|[_ Hle]]; [lia|done].
  - split; [by left|done].
  - split; [done|]. intros [Hlt|[-> _]]; lia.
Qed.

Lemma sorted_Permutation (s : gset string) : sorted s ≡ₚ elements s.
Proof. apply merge_sort_Permutation. Qed.

Lemma elem_of_sorted (s : gset string) (c : string) : c ∈ sorted s ↔ c ∈ s.
Proof. by rewrite sorted_Permutation, elem_of_elements. Qed.

Lemma NoDup_sorted (s : gset string) : NoDup (sorted s).
Proof. rewrite sorted_Permutation. apply NoDup_elements. Qed.

Lemma StronglySorted_le_sorted (s : gset string) :
  StronglySorted String.le (sorted s).
Proof. apply (StronglySorted_merge_sort String.le). Qed.

Lemma StronglySorted_strict (l : list string) :
  StronglySorted String.le l → NoDup l → StronglySorted str_lt l.
Proof.
  induction 1 as [|x l Hl IH Hx]; intros Hnd; [constructor|].
  apply NoDup_cons in Hnd as [Hnotin Hnd].
  constructor; [by apply IH|].
  apply Forall_forall. intros y Hy. split.
  - by eapply Forall_forall in Hx.
  - intros ->. done.
Qed.

Lemma StronglySorted_sorted (s : gset string) :
  StronglySorted str_lt (sorted s).
Proof.
  apply StronglySorted_strict;
    [apply StronglySorted_le_sorted | apply NoDup_sorted].
Qed.

Lemma sorted_empty : sorted ∅ = [].
Proof. unfold sorted. by rewrite elements_empty. Qed.

(** ** The category diff *)

Section Differ.
Context {A : Type} `{Arith A}.
Implicit Types old_data new_data data : option (gmap string (gmap string (gmap string A))).

Lemma elem_of_categories_of data (c : string) :
  c ∈ categories_of data ↔ has_category data c.
Proof.
  destruct data as [d|]; simpl; [|set_solver].
  case_bool_decide as Hsize.
  - apply elem_of_dom.
  - assert (d = ∅) as -> by (apply map_size_empty_iff; lia).
    rewrite lookup_empty. split; [set_solver|]. by intros [? ?].
Qed.

(** C5: the categories missing from B relative to A are the categories added
    to A relative to B, as sequences, and the other way round. *)
Theorem compare_service_data_symmetry old_data new_data :
  (compare_service_data old_data new_data).1
    = (compare_service_data new_data old_data).2 ∧
  (compare_service_data old_data new_data).2
    = (compare_service_data new_data old_data).1.
Proof. by unfold compare_service_data. Qed.

(** C9: comparing a dictionary with itself gives no missing and no added
    category. *)
Theorem compare_service_data_same data :
  compare_service_data data data = ([], []).
Proof.
  unfold compare_service_data.
  by rewrite difference_diag_L, sorted_empty.
Qed.

(** C7: both sequences of the diff are strictly ascending in the
    lexicographic order of strings, hence sorted and free of duplicates, and
    a category is listed exactly when it is a key of one dictionary and not a
    key of the other, keys being compared by equality of strings. *)
Theorem compare_service_data_sorted_sets old_data new_data :
  let missing_services := (compare_service_data old_data new_data).1 in
  let added_services := (compare_service_data old_data new_data).2 in
  StronglySorted String.le missing_services ∧
  StronglySorted String.le added_services ∧
  StronglySorted str_lt missing_services ∧
  StronglySorted str_lt added_services ∧
  NoDup missing_services ∧
  NoDup added_services ∧
  (∀ c, c ∈ missing_services ↔
        has_category old_data c ∧ ¬ has_category new_data c) ∧
  (∀ c, c ∈ added_services ↔
        has_category new_data c ∧ ¬ has_category old_data c).
Proof.
  unfold compare_service_data. simpl.
  split_and!;
    try apply StronglySorted_le_sorted;
    try apply StronglySorted_sorted;
    try apply NoDup_sorted.
  all: intros c;
    by rewrite elem_of_sorted, elem_of_difference, !elem_of_categories_of.
Qed.

End Differ.

(** ** Trimming and the sentinel *)

Lemma lstrip_first (s : string) (c : ascii) :
  first_char (lstrip s) = Some c → is_space c = false.
Proof.
  induction s as [|a s IH]; simpl; [done|].
  destruct (is_space a) eqn:Ha; [done|].
  simpl. by intros [= <-].
Qed.

Lemma rstrip_first (s : string) (c : ascii) :
  first_char (rstrip s) = Some c → first_char s = Some c.
Proof.
  destruct s as [|a s]; simpl; [done|].
  destruct (rstrip s); [destruct (is_space a)|]; simpl; done.
Qed.

Lemma rstrip_last (s : string) (c : ascii) :
  last_char (rstrip s) = Some c → is_space c = false.
Proof.
  induction s as [|a s IH]; simpl; [done|].
  destruct (rstrip s) as [|b r] eqn:Hr.
  - destruct (is_space a) eqn:Ha; simpl; [done|]. by intros [= <-].
  - done.
Qed.

Lemma trimmed_strip (s : string) : trimmed (strip s).
Proof.
  split; intros c Hc.
  - apply rstrip_first in Hc. by eapply lstrip_first.
  - by eapply rstrip_last.
Qed.

Section Normalizer.
Context {A : Type} `{Arith A}.
Variable parse : string → option A.

Lemma key_or_na_rule (v : cell) : sentinel_rule v (key_or_na v).
Proof.
  unfold sentinel_rule, key_or_na.
  destruct v as [|s]; simpl.
  { split; [done|tauto]. }
  repeat case_bool_decide; simpl; split; intros Hcase; try done; tauto.
Qed.

Lemma good_key_or_na (v : cell) : good_key (key_or_na v).
Proof.
  unfold key_or_na.
  destruct (bool_decide _ && bool_decide _) eqn:Hcond; [|by left].
  apply andb_prop in Hcond as [_ Hne%bool_decide_eq_true].
  right. split; [done|]. apply trimmed_strip.
Qed.

(** C3: a row with a category and a readable amount gives an entry with that
    category and amount, whose subcategory and unit follow the substitution
    rule: the sentinel when the cell is missing, blank once trimmed or the
    text of not-a-number, the trimmed text otherwise.  So a missing or blank
    subcategory with the amount 5 gives
    [(category, "N/A", unit or "N/A", 5)]. *)
Theorem normalize_sentinel_rule (r : row A) (category : string) (amount : A) :
  service_category r = Str category →
  to_numeric parse (total r) = Some amount →
  ∃ subcategory unit,
    normalize parse r = Some (Entry category subcategory unit amount) ∧
    sentinel_rule (service_sub_category r) subcategory ∧
    sentinel_rule (service_unit r) unit ∧
    (service_sub_category r = NaN ∨
     strip (py_str (service_sub_category r)) = "" → subcategory = "N/A").
Proof.
  intros Hcat Hnum.
  exists (key_or_na (service_sub_category r)), (key_or_na (service_unit r)).
  unfold normalize. rewrite Hcat, Hnum.
  split_and!; [done|apply key_or_na_rule..|].
  intros Hblank. apply key_or_na_rule.
  destruct (service_sub_category r); simpl in *; [done|].
  destruct Hblank; [done|by left].
Qed.

End Normalizer.

(** ** Accumulation *)

Section Aggregator.
Context {A : Type} `{Arith A}.
Variable parse : string → option A.
Implicit Types service_data : gmap string (gmap string (gmap string A)).
Implicit Types e : entry A.

Lemma lookup_add_entry service_data e (c : string) :
  add_entry service_data e !! c =
    if decide (e_category e = c)
    then Some (<[e_subcategory e :=
                  <[e_unit e :=
                      add (default zero
                             (lookup3 service_data (e_category e)
                                (e_subcategory e) (e_unit e)))
                          (e_amount e)]>
                    (default ∅ (default ∅ (service_data !! e_category e)
                                  !! e_subcategory e))]>
                (default ∅ (service_data !! e_category e)))
    else service_data !! c.
Proof.
  unfold add_entry, lookup3. rewrite lookup_insert. case_decide; [|done].
  do 3 f_equal.
  destruct (service_data !! e_category e) as [subs|]; simpl; [|done].
  destruct (subs !! e_subcategory e); simpl; done.
Qed.

Lemma lookup3_add_entry_eq service_data e :
  lookup3 (add_entry service_data e) (e_category e) (e_subcategory e)
          (e_unit e)
  = Some (add (default zero
                 (lookup3 service_data (e_category e) (e_subcategory e)
                    (e_unit e)))
              (e_amount e)).
Proof.
  unfold lookup3 at 1. rewrite lookup_add_entry.
  rewrite decide_True by done. by rewrite !lookup_insert_eq.
Qed.

Lemma lookup3_add_entry_ne service_data e (c s u : string) :
  (c, s, u) ≠ triple e →
  lookup3 (add_entry service_data e) c s u = lookup3 service_data c s u.
Proof.
  intros Hne. unfold lookup3 at 1. rewrite lookup_add_entry.
  case_decide as Hc; [subst c|done].
  unfold lookup3.
  destruct (decide (e_subcategory e = s)) as [<-|Hs].
  - rewrite lookup_insert_eq.
    rewrite lookup_insert_ne by (intros <-; by apply Hne).
    destruct (service_data !! e_category e) as [subs|]; simpl; [|done].
    destruct (subs !! e_subcategory e); simpl; done.
  - rewrite lookup_insert_ne by done.
    destruct (service_data !! e_category e) as [subs|]; simpl; done.
Qed.

Lemma df_clean_app (df1 df2 : list (row A)) :
  df_clean parse (df1 ++ df2) = df_clean parse df1 ++ df_clean parse df2.
Proof. apply omap_app. Qed.

Lemma analyze_app (df1 df2 : list (row A)) :
  analyze_azure_services parse (df1 ++ df2)
  = foldl add_entry (analyze_azure_services parse df1) (df_clean parse df2).
Proof.
  unfold analyze_azure_services, aggregate_entries.
  by rewrite df_clean_app, foldl_app.
Qed.

Lemma keys_ok_empty : keys_ok (∅ : gmap string (gmap string (gmap string A))).
Proof. intros c subs s units Hc. by rewrite lookup_empty in Hc. Qed.

Lemma keys_ok_add_entry service_data e :
  good_key (e_subcategory e) → good_key (e_unit e) →
  keys_ok service_data → keys_ok (add_entry service_data e).
Proof.
  intros Hsub Hunit Hok c subs s units Hc Hs.
  rewrite lookup_add_entry in Hc. case_decide as Hcat; [|by eapply Hok].
  injection Hc as <-.
  destruct (service_data !! e_category e) as [subs0|] eqn:Hsd; simpl in Hs.
  - rewrite lookup_insert in Hs. case_decide as Hse; [|by eapply Hok].
    injection Hs as <-. subst s. split; [done|]. intros u.
    rewrite lookup_insert. case_decide as Hu; [by subst u|].
    destruct (subs0 !! e_subcategory e) as [units0|] eqn:Hsub0; simpl.
    + intros Hin. by eapply (Hok _ _ _ _ Hsd Hsub0).
    + rewrite lookup_empty. by intros [? ?].
  - rewrite lookup_insert in Hs. case_decide as Hse.
    + injection Hs as <-. subst s. split; [done|]. intros u.
      rewrite lookup_insert. case_decide as Hu; [by subst u|].
      rewrite !lookup_empty. simpl. rewrite lookup_empty. by intros [? ?].
    + by rewrite lookup_empty in Hs.
Qed.

Lemma keys_ok_foldl (entries : list (entry A)) service_data :
  Forall (λ e, good_key (e_subcategory e) ∧ good_key (e_unit e)) entries →
  keys_ok service_data → keys_ok (foldl add_entry service_data entries).
Proof.
  intros Hall. revert service_data.
  induction Hall as [|e entries [Hs Hu] _ IH]; intros sd Hok; simpl; [done|].
  apply IH. by apply keys_ok_add_entry.
Qed.

Lemma df_clean_good_keys (df : list (row A)) :
  Forall (λ e, good_key (e_subcategory e) ∧ good_key (e_unit e))
         (df_clean parse df).
Proof.
  apply Forall_forall. intros e He.
  apply list_elem_of_omap in He as (r & _ & Hr).
  unfold normalize in Hr.
  destruct (service_category r); [done|].
  destruct (to_numeric parse (total r)); [|done].
  injection Hr as <-. simpl. split; apply good_key_or_na.
Qed.

(** C10: in the dictionary the analyzer returns, every subcategory key and
    every unit key is the sentinel ["N/A"] or a non-empty string without
    white space at either end. *)
Theorem analyze_keys_trimmed_or_sentinel (df : list (row A))
    (c s : string) (subcategories : gmap string (gmap string A))
    (units : gmap string A) :
  analyze_azure_services parse df !! c = Some subcategories →
  subcategories !! s = Some units →
  good_key s ∧ ∀ u, is_Some (units !! u) → good_key u.
Proof.
  apply (keys_ok_foldl (df_clean parse df) ∅);
    [apply df_clean_good_keys | apply keys_ok_empty].
Qed.

(** C4, as the code has it: a row is skipped, without an exception, exactly
    when its category is missing or its amount is not a number; a skipped row
    leaves the result as it is without the row, and every other row adds its
    amount to the total of one triple (category, subcategory, unit) and
    changes no other total. *)
Theorem normalize_skip_rule (r : row A) :
  (normalize parse r = None ↔
     service_category r = NaN ∨ to_numeric parse (total r) = None) ∧
  (normalize parse r = None →
     ∀ df1 df2,
       analyze_azure_services parse (df1 ++ r :: df2)
       = analyze_azure_services parse (df1 ++ df2)) ∧
  (∀ e, normalize parse r = Some e →
     service_category r = Str (e_category e) ∧
     to_numeric parse (total r) = Some (e_amount e) ∧
     (∀ df1 df2,
        analyze_azure_services parse (df1 ++ r :: df2)
        = foldl add_entry
            (add_entry (analyze_azure_services parse df1) e)
            (df_clean parse df2)) ∧
     (∀ service_data,
        lookup3 (add_entry service_data e) (e_category e) (e_subcategory e)
                (e_unit e)
        = Some (add (default zero
                       (lookup3 service_data (e_category e)
                          (e_subcategory e) (e_unit e)))
                    (e_amount e)) ∧
        ∀ c s u, (c, s, u) ≠ triple e →
          lookup3 (add_entry service_data e) c s u
          = lookup3 service_data c s u)).
Proof.
  split_and!.
  - unfold normalize.
    destruct (service_category r); [split; auto|].
    destruct (to_numeric parse (total r)); split; try done; auto.
    intros [?|?]; done.
  - intros Hskip df1 df2. rewrite !analyze_app. unfold df_clean at 1.
    simpl. fold (df_clean parse df2). by rewrite Hskip.
  - intros e He. split_and!.
    + unfold normalize in He. destruct (service_category r); [done|].
      destruct (to_numeric parse (total r)); by simplify_eq.
    + unfold normalize in He. destruct (service_category r); [done|].
      destruct (to_numeric parse (total r)); by simplify_eq.
    + intros df1 df2. rewrite analyze_app. unfold df_clean at 1.
      simpl. fold (df_clean parse df2). by rewrite He.
    + intros sd. split;
        [apply lookup3_add_entry_eq | apply lookup3_add_entry_ne].
Qed.

End Aggregator.

(** ** Rendering of a comparison *)

Section Comparison.
Context {A : Type} `{Arith A}.
Variable fmt2 : A → string.
Variable markup_ok : string → bool.
Implicit Types old new : gmap string (gmap string (gmap string A)).
Implicit Types old_data new_data : option (gmap string (gmap string (gmap string A))).

Lemma lookup3_get_or_empty old (c s u : string) :
  lookup3 old c s u = get_or_empty (get_or_empty old c) s !! u.
Proof.
  unfold lookup3, get_or_empty.
  destruct (old !! c) as [subs|]; simpl; [|by rewrite !lookup_empty].
  destruct (subs !! s); simpl; [done|by rewrite lookup_empty].
Qed.



Lemma for_each_fmap {X Y : Type} (body : X → result Y) (f : X → Y)
    (l : list X) :
  (∀ x, x ∈ l → body x = Ok (f x)) → for_each body l = Ok (f <$> l).
Proof.
  induction l as [|x l IH]; intros Hbody; [done|].
  cbn [for_each]. rewrite Hbody by (apply elem_of_cons; by left).
  rewrite IH; [done|]. intros y Hy. apply Hbody, elem_of_cons. by right.
Qed.

Lemma paragraph_Ok (name : string) :
  markup_ok name = true → paragraph markup_ok name = Ok name.
Proof. unfold paragraph. by intros ->. Qed.

Lemma service_bullets_Ok (services : list string) :
  (∀ c, c ∈ services → markup_ok c = true) →
  service_bullets markup_ok services = Ok (CService <$> services).
Proof.
  intros Hok. unfold service_bullets. apply for_each_fmap.
  intros c Hc. by rewrite paragraph_Ok by by apply Hok.
Qed.

(** With names that [Paragraph] takes, the paragraphs on service changes
    are made: the heading and the two lists, or the one line that says
    nothing changed. *)
Lemma story_service_changes_accepted old_data new_data :
  (∀ c, c ∈ categories_of old_data ∪ categories_of new_data →
        markup_ok c = true) →
  story_service_changes markup_ok old_data new_data
  = Ok (let missing_services := (compare_service_data old_data new_data).1 in
        let added_services := (compare_service_data old_data new_data).2 in
        if nonempty missing_services || nonempty added_services
        then CHeading
             :: (if nonempty missing_services
                 then CMissing (length missing_services)
                      :: (CService <$> missing_services)
                 else [])
             ++ (if nonempty added_services
                 then CAdded (length added_services)
                      :: (CService <$> added_services)
                 else [])
        else [CNoChanges]).
Proof.
  intros Hok. unfold story_service_changes, compare_service_data.
  cbn [fst snd].
  rewrite (service_bullets_Ok (sorted (categories_of old_data ∖ _))).
  - rewrite (service_bullets_Ok (sorted (categories_of new_data ∖ _))).
    + by destruct (nonempty (sorted (categories_of old_data ∖ _))),
        (nonempty (sorted (categories_of new_data ∖ _))).
    + intros c Hc. apply Hok.
      apply elem_of_sorted, elem_of_difference in Hc as [Hc _].
      apply elem_of_union. by right.
  - intros c Hc. apply Hok.
    apply elem_of_sorted, elem_of_difference in Hc as [Hc _].
    apply elem_of_union. by left.
Qed.

Lemma names_accepted_categories old new :
  names_accepted markup_ok old → names_accepted markup_ok new →
  ∀ c, c ∈ categories_of (Some old) ∪ categories_of (Some new) →
       markup_ok c = true.
Proof.
  intros Hold Hnew c Hc. apply elem_of_union in Hc as [Hc|Hc];
    apply elem_of_categories_of in Hc as [subs Hsubs].
  - by destruct (Hold c subs Hsubs).
  - by destruct (Hnew c subs Hsubs).
Qed.

Lemma names_accepted_subcategory old (c s : string) :
  names_accepted markup_ok old → s ∈ dom (get_or_empty old c) →
  markup_ok s = true.
Proof.
  intros Hold Hs. unfold get_or_empty in Hs.
  destruct (old !! c) as [subs|] eqn:Hc; simpl in Hs.
  - destruct (Hold c subs Hc) as [_ Hsubs]. apply Hsubs.
    by apply elem_of_dom.
  - by rewrite dom_empty_L in Hs; apply elem_of_empty in Hs.
Qed.

(** With names that [Paragraph] takes, the detailed comparison of two
    dictionaries is made: a heading and a table for each category of either
    and each of its subcategories. *)
Lemma detailed_comparison_accepted old new :
  names_accepted markup_ok old → names_accepted markup_ok new →
  detailed_comparison fmt2 markup_ok (Some old) (Some new)
  = Ok ((λ category,
           (category,
            (λ subcategory,
               (subcategory,
                table_data fmt2
                  (get_or_empty (get_or_empty old category) subcategory)
                  (get_or_empty (get_or_empty new category) subcategory)))
            <$> sorted (dom (get_or_empty old category)
                          ∪ dom (get_or_empty new category))))
        <$> sorted (dom old ∪ dom new)).
Proof.
  intros Hold Hnew. unfold detailed_comparison. simpl.
  apply for_each_fmap. intros c Hc.
  rewrite paragraph_Ok.
  - simpl. rewrite (for_each_fmap _
      (λ subcategory,
         (subcategory,
          table_data fmt2
            (get_or_empty (get_or_empty old c) subcategory)
            (get_or_empty (get_or_empty new c) subcategory)))); [done|].
    intros s Hs. rewrite paragraph_Ok; [done|].
    apply elem_of_sorted, elem_of_union in Hs as [Hs|Hs];
      [by apply (names_accepted_subcategory old c)
      |by apply (names_accepted_subcategory new c)].
  - apply (names_accepted_categories old new Hold Hnew).
    apply elem_of_sorted, elem_of_union in Hc as [Hc|Hc];
      apply elem_of_dom in Hc; apply elem_of_union; [left|right];
      by apply elem_of_categories_of.
Qed.


Lemma left_content_Some old (old_totals : gmap string A) (category : string) :
  ∃ lines, left_content (Some old) old_totals category = Ok lines.
Proof.
  unfold left_content, py_in, py_item. simpl.
  case_bool_decide as Hin; [|by eexists].
  apply elem_of_dom in Hin as [subs ->]. by eexists.
Qed.

(** With [None] for the old file and a new file that has a category, the
    first test [category in old_data] raises. *)
Lemma display_None_old new (c : string) :
  is_Some (new !! c) →
  display_dual_service_comparison None (Some new) = Raise TypeError.
Proof.
  intros Hc. unfold display_dual_service_comparison.
  destruct (sorted _) as [|category l] eqn:Hsorted.
  - assert (c ∈ sorted (categories_of (A:=A) None ∪ categories_of (Some new)))
      as Hin; [|by rewrite Hsorted in Hin; apply elem_of_nil in Hin].
    apply elem_of_sorted, elem_of_union. right.
    by apply elem_of_categories_of.
  - done.
Qed.

(** With [None] for the new file, the test [category in new_data] raises. *)
Lemma display_None_new old (c : string) :
  is_Some (old !! c) →
  display_dual_service_comparison (Some old) None = Raise TypeError.
Proof.
  intros Hc. unfold display_dual_service_comparison.
  destruct (sorted _) as [|category l] eqn:Hsorted.
  - assert (c ∈ sorted (categories_of (Some old) ∪ categories_of (A:=A) None))
      as Hin; [|by rewrite Hsorted in Hin; apply elem_of_nil in Hin].
    apply elem_of_sorted, elem_of_union. left.
    by apply elem_of_categories_of.
  - destruct (left_content_Some old (totals_of (Some old)) category)
      as [lines Hleft].
    cbn [for_each]. by rewrite Hleft.
Qed.

(** The detailed comparison of the PDF report asks [None] for its keys. *)
Lemma generate_comparison_pdf_None new (old_file_name new_file_name : string) :
  markup_ok old_file_name = true → markup_ok new_file_name = true →
  (∀ c, is_Some (new !! c) → markup_ok c = true) →
  generate_comparison_pdf fmt2 markup_ok None (Some new)
                          old_file_name new_file_name
  = Raise AttributeError.
Proof.
  intros Hofn Hnfn Hnew. unfold generate_comparison_pdf.
  rewrite !paragraph_Ok by done. simpl.
  rewrite story_service_changes_accepted; [done|].
  intros c Hc. apply elem_of_union in Hc as [Hc|Hc].
  - by apply elem_of_empty in Hc.
  - apply Hnew. by apply elem_of_categories_of in Hc.
Qed.

(** Whatever the names, the report of a comparison with [None] is not
    built. *)
Lemma generate_comparison_pdf_None_raises new
    (old_file_name new_file_name : string) :
  ∃ e, generate_comparison_pdf fmt2 markup_ok None (Some new)
                               old_file_name new_file_name
       = Raise e.
Proof.
  unfold generate_comparison_pdf, paragraph.
  destruct (markup_ok old_file_name); [|by eexists].
  destruct (markup_ok new_file_name); [|by eexists]. simpl.
  destruct (story_service_changes markup_ok None (Some new));
    by eexists.
Qed.

(** The category diff takes [None] for an empty dictionary. *)
Lemma compare_service_data_None (data : option (gmap string (gmap string (gmap string A)))) :
  compare_service_data None data = compare_service_data (Some ∅) data ∧
  compare_service_data data None = compare_service_data data (Some ∅).
Proof. done. Qed.

End Comparison.

(** ** The order of accumulation *)

Section UpdateDefault.
Context {V : Type}.
Implicit Types d : gmap string V.

Lemma update_default_comm (k1 k2 : string) (f g : V → V) (dflt : V) d :
  (k1 = k2 → ∀ x, f (g x) = g (f x)) →
  update_default k1 f dflt (update_default k2 g dflt d)
  = update_default k2 g dflt (update_default k1 f dflt d).
Proof.
  intros Hfg. unfold update_default.
  destruct (decide (k1 = k2)) as [<-|Hne].
  - rewrite !lookup_insert_eq, !insert_insert_eq. simpl. by rewrite Hfg.
  - rewrite !lookup_insert_ne by done. by apply insert_insert_ne.
Qed.

Lemma update_default_fmap {V' : Type} (g : V → V') (k : string)
    (f : V → V) (f' : V' → V') (dflt : V) (dflt' : V') d :
  g dflt = dflt' →
  g (f (default dflt (d !! k))) = f' (g (default dflt (d !! k))) →
  g <$> update_default k f dflt d = update_default k f' dflt' (g <$> d).
Proof.
  intros Hdflt Hf. unfold update_default.
  rewrite fmap_insert, lookup_fmap, Hf. do 2 f_equal.
  by destruct (d !! k).
Qed.

End UpdateDefault.

Section Reorder.
Context {A : Type} `{Arith A}.
Implicit Types service_data : gmap string (gmap string (gmap string A)).
Implicit Types e : entry A.

Lemma add_entry_update_default service_data e :
  add_entry service_data e
  = update_default (e_category e)
      (update_default (e_subcategory e)
         (update_default (e_unit e) (λ x, add x (e_amount e)) zero) ∅) ∅
      service_data.
Proof. done. Qed.

Lemma add_entry_commute service_data e1 e2 :
  commute e1 e2 →
  add_entry (add_entry service_data e1) e2
  = add_entry (add_entry service_data e2) e1.
Proof.
  intros Hcomm. rewrite !add_entry_update_default.
  apply update_default_comm. intros Hc subs.
  apply update_default_comm. intros Hs units.
  apply update_default_comm. intros Hu x.
  destruct Hcomm as [Hne|Hadd]; [|apply Hadd].
  destruct Hne. unfold triple. by rewrite Hc, Hs, Hu.
Qed.

Lemma foldl_add_entry_reorder (es1 es2 : list (entry A)) service_data :
  reorder es1 es2 →
  foldl add_entry service_data es1 = foldl add_entry service_data es2.
Proof.
  intros Hre. revert service_data.
  induction Hre as [|e es1 es2 _ IH|e1 e2 es Hcomm|es1 es2 es3 _ IH1 _ IH2];
    intros sd; simpl.
  - done.
  - apply IH.
  - by rewrite add_entry_commute.
  - by rewrite IH1.
Qed.

(** Exchanges of neighbouring entries that are filed under different
    triples, or whose amounts add up to the same number in either order,
    leave the result as it is. *)
Lemma aggregate_entries_reorder (es1 es2 : list (entry A)) :
  reorder es1 es2 → aggregate_entries es1 = aggregate_entries es2.
Proof. apply foldl_add_entry_reorder. Qed.

Lemma commute_sym e1 e2 : commute e1 e2 → commute e2 e1.
Proof. intros [Hne|Hadd]; [by left|right]. intros x. by rewrite Hadd. Qed.

Lemma reorder_refl (es : list (entry A)) : reorder es es.
Proof. induction es; by constructor. Qed.

Lemma reorder_sym (es1 es2 : list (entry A)) :
  reorder es1 es2 → reorder es2 es1.
Proof.
  induction 1 as [|e es1 es2 _ IH|e1 e2 es Hcomm|es1 es2 es3 _ IH1 _ IH2].
  - constructor.
  - by constructor.
  - by apply reorder_swap, commute_sym.
  - by eapply reorder_trans.
Qed.

(** An entry moves to the front across entries of other triples. *)
Lemma reorder_to_front e (l r : list (entry A)) :
  Forall (λ x, triple x ≠ triple e) l →
  reorder (l ++ e :: r) (e :: l ++ r).
Proof.
  induction 1 as [|x l Hx _ IH]; simpl; [apply reorder_refl|].
  eapply reorder_trans; [apply reorder_skip, IH|].
  apply reorder_swap. by left.
Qed.

Lemma entries_of_head_split (t : string * string * string) e
    (es tl : list (entry A)) :
  entries_of t es = e :: tl →
  ∃ l r, es = l ++ e :: r ∧ Forall (λ x, triple x ≠ t) l ∧
         entries_of t r = tl.
Proof.
  unfold entries_of. induction es as [|x es IH]; [done|].
  rewrite filter_cons. case_decide as Hx.
  - intros [= -> <-]. by exists [], es.
  - intros Heq. destruct (IH Heq) as (l & r & -> & Hl & Hr).
    exists (x :: l), r. split_and!; [done|by constructor|done].
Qed.

Lemma entries_of_nil (es : list (entry A)) :
  (∀ t, entries_of t es = []) → es = [].
Proof.
  destruct es as [|e es]; [done|]. intros Hall.
  specialize (Hall (triple e)). unfold entries_of in Hall.
  rewrite filter_cons, decide_True in Hall by done. done.
Qed.

(** Sequences that list the entries of every triple in the same order differ
    by exchanges across triples. *)
Lemma stable_reorder (es1 es2 : list (entry A)) :
  (∀ t, entries_of t es1 = entries_of t es2) → reorder es1 es2.
Proof.
  revert es2. induction es1 as [|e es1 IH]; intros es2 Hall.
  - rewrite (entries_of_nil es2); [constructor|].
    intros t. by rewrite <- Hall.
  - pose proof (Hall (triple e)) as He. unfold entries_of in He at 1.
    rewrite filter_cons, decide_True in He by done. symmetry in He.
    destruct (entries_of_head_split _ _ _ _ He) as (l & r & -> & Hl & Hr).
    eapply reorder_trans; [|apply reorder_sym, reorder_to_front, Hl].
    apply reorder_skip, IH. intros t.
    specialize (Hall t). unfold entries_of in *.
    rewrite filter_app in *. rewrite !filter_cons in Hall.
    destruct (decide (triple e = t)) as [<-|Hne].
    + assert (filter (λ x, triple x = triple e) l = []) as ->; [|by rewrite Hr].
      clear -Hl. induction Hl as [|x l Hx _ IHl]; [done|].
      by rewrite filter_cons, decide_False.
    + done.
Qed.

(** Such sequences are permutations of each other. *)
Lemma reorder_Permutation (es1 es2 : list (entry A)) :
  reorder es1 es2 → es1 ≡ₚ es2.
Proof.
  induction 1 as [|e es1 es2 _ IH|e1 e2 es _|es1 es2 es3 _ IH1 _ IH2].
  - done.
  - by constructor.
  - apply perm_swap.
  - by etrans.
Qed.

Lemma stable_Permutation (es1 es2 : list (entry A)) :
  (∀ t, entries_of t es1 = entries_of t es2) → es1 ≡ₚ es2.
Proof. intros Hall. by apply reorder_Permutation, stable_reorder. Qed.

(** C2, as the code has it: two sequences of entries that list the entries
    of every triple (category, subcategory, unit) in the same order, that is
    a sequence and a permutation of it that keeps the order of the entries
    within each triple, accumulate to the same dictionary. *)
Theorem aggregate_entries_stable (es1 es2 : list (entry A)) :
  (∀ t, entries_of t es1 = entries_of t es2) →
  aggregate_entries es1 = aggregate_entries es2.
Proof. intros Hall. by apply foldl_add_entry_reorder, stable_reorder. Qed.

End Reorder.

(** ** Arithmetic without rounding *)

Section ExactOrder.
Context {A : Type} `{ExactArith A}.
Implicit Types e : entry A.

Lemma add_zero_r (x : A) : add x zero = x.
Proof. by rewrite add_comm, add_zero_l. Qed.

Lemma add_right_comm (x a b : A) : add (add x a) b = add (add x b) a.
Proof. by rewrite <- !add_assoc, (add_comm a b). Qed.

Lemma commute_exact e1 e2 : commute e1 e2.
Proof. right. intros x. apply add_right_comm. Qed.

Lemma Permutation_reorder (es1 es2 : list (entry A)) :
  es1 ≡ₚ es2 → reorder es1 es2.
Proof.
  induction 1 as [|e es1 es2 _ IH|e1 e2 es|es1 es2 es3 _ IH1 _ IH2].
  - constructor.
  - by constructor.
  - apply reorder_swap, commute_exact.
  - by eapply reorder_trans.
Qed.

(** Without rounding every permutation is a reordering: the order of the
    entries does not matter at all. *)
Corollary aggregate_entries_Permutation (es1 es2 : list (entry A)) :
  es1 ≡ₚ es2 → aggregate_entries es1 = aggregate_entries es2.
Proof.
  intros Hperm. by apply foldl_add_entry_reorder, Permutation_reorder.
Qed.

End ExactOrder.

Section ExactSums.
Context {A : Type} `{ExactArith A}.
Variable parse : string → option A.
Implicit Types service_data : gmap string (gmap string (gmap string A)).

Lemma msum_empty {V : Type} (g : V → A) : msum g ∅ = zero.
Proof. apply map_fold_empty. Qed.

Lemma msum_insert {V : Type} (g : V → A) (k : string) (v : V)
    (d : gmap string V) :
  d !! k = None → msum g (<[k := v]> d) = add (msum g d) (g v).
Proof.
  intros Hk. unfold msum.
  rewrite map_fold_insert_L; [done| |done].
  intros j1 j2 z1 z2 y _ _ _. apply add_right_comm.
Qed.

Lemma msum_update_default {V : Type} (g : V → A) (k : string) (f : V → V)
    (dflt : V) (t : A) (d : gmap string V) :
  (∀ x, g (f x) = add (g x) t) → g dflt = zero →
  msum g (update_default k f dflt d) = add (msum g d) t.
Proof.
  intros Hf Hdflt. unfold update_default.
  destruct (d !! k) as [x|] eqn:Hk; simpl.
  - rewrite <- (insert_delete_eq d k (f x)).
    rewrite msum_insert by apply lookup_delete_eq.
    rewrite <- (insert_delete_id d k x Hk) at 2.
    rewrite msum_insert by apply lookup_delete_eq.
    by rewrite Hf, add_assoc.
  - rewrite msum_insert by done. by rewrite Hf, Hdflt, add_zero_l.
Qed.

Lemma foldr_add_acc {K V : Type} (f : K → V → A → A) (g : V → A) (acc : A)
    (l : list (K * V)) :
  (∀ k x b, f k x b = add b (g x)) →
  foldr (uncurry f) acc l
  = add acc (foldr (uncurry (λ _ x b, add b (g x))) zero l).
Proof.
  intros Hf. induction l as [|[k x] l IH]; simpl.
  - by rewrite add_zero_r.
  - by rewrite Hf, IH, add_assoc.
Qed.

Lemma map_fold_msum {V : Type} (f : string → V → A → A) (g : V → A)
    (acc : A) (d : gmap string V) :
  (∀ k x b, f k x b = add b (g x)) →
  map_fold f acc d = add acc (msum g d).
Proof.
  intros Hf. unfold msum. rewrite !map_fold_foldr.
  by apply foldr_add_acc.
Qed.

Lemma units_total_msum (acc : A) (units : gmap string A) :
  units_total acc units = add acc (msum id units).
Proof. by apply map_fold_msum. Qed.

Lemma category_total_msum (subcategories : gmap string (gmap string A)) :
  category_total subcategories = msum (msum id) subcategories.
Proof.
  unfold category_total.
  rewrite (map_fold_msum _ (msum id)), add_zero_l; [done|].
  intros _ units b. apply units_total_msum.
Qed.

Lemma sum_values_totals service_data :
  sum_values (calculate_category_totals service_data)
  = msum (msum (msum id)) service_data.
Proof.
  unfold sum_values, calculate_category_totals. rewrite map_fold_fmap.
  rewrite (map_fold_msum _ (msum (msum id))), add_zero_l; [done|].
  intros _ subs b. simpl. by rewrite category_total_msum.
Qed.

Lemma sum_values_add_entry service_data (e : entry A) :
  sum_values (calculate_category_totals (add_entry service_data e))
  = add (sum_values (calculate_category_totals service_data)) (e_amount e).
Proof.
  rewrite !sum_values_totals, add_entry_update_default.
  apply msum_update_default; [|apply msum_empty]. intros subs.
  apply msum_update_default; [|apply msum_empty]. intros units.
  by apply msum_update_default.
Qed.

Lemma sum_values_foldl (entries : list (entry A)) service_data :
  sum_values (calculate_category_totals (foldl add_entry service_data entries))
  = foldl add (sum_values (calculate_category_totals service_data))
          (e_amount <$> entries).
Proof.
  revert service_data. induction entries as [|e es IH]; intros sd; simpl.
  - done.
  - by rewrite IH, sum_values_add_entry.
Qed.

Lemma df_clean_amounts (df : list (row A)) :
  e_amount <$> df_clean parse df = surviving_amounts parse df.
Proof.
  unfold df_clean, surviving_amounts.
  induction df as [|r df IH]; [done|].
  rewrite filter_cons.
  change (omap (normalize parse) (r :: df))
    with (match normalize parse r with
          | Some e => e :: omap (normalize parse) df
          | None => omap (normalize parse) df
          end).
  unfold normalize at 1.
  destruct (service_category r) eqn:Hcat.
  - rewrite decide_False by (intros Hne; by apply Hne). exact IH.
  - rewrite decide_True by done.
    change (omap ?f (r :: ?l))
      with (match f r with Some y => y :: omap f l | None => omap f l end).
    cbv beta.
    destruct (to_numeric parse (total r)); [|exact IH].
    rewrite fmap_cons. simpl. f_equal. exact IH.
Qed.

(** For arithmetic without rounding, that is when addition is associative
    and commutative with zero as its identity, the sum of the category totals
    of the analyzed rows is the sum of the amounts of the rows that have a
    category and an amount that is a number. *)
Lemma category_totals_sum (df : list (row A)) :
  sum_values (calculate_category_totals (analyze_azure_services parse df))
  = sum_list (surviving_amounts parse df).
Proof.
  unfold analyze_azure_services, aggregate_entries.
  rewrite sum_values_foldl, df_clean_amounts.
  unfold calculate_category_totals, sum_values.
  by rewrite fmap_empty, map_fold_empty.
Qed.

End ExactSums.

(** ** Binary64 addition of integers *)

(** Integers below [2^53] are binary64 numbers, and binary64 adds them
    without rounding as long as the sum stays below [2^53]. *)

Section Binary64Integers.
Local Open Scope Z_scope.

Lemma shl_spec p n : 0 <= n -> Zpos (shl p n) = Zpos p * 2 ^ n.
Proof.
  intros Hn. destruct n as [|q|q]; simpl shl; [lia| |lia].
  change (Pos.iter xO p q) with (Zpower.shift_pos q p).
  rewrite Zpower.shift_pos_correct, Zpower.Zpower_pos_nat, Zpower.Zpower_nat_Z.
  rewrite positive_nat_Z. lia.
Qed.

Lemma shl_shl p n k : 0 <= n -> 0 <= k -> shl (shl p n) k = shl p (n + k).
Proof.
  intros Hn Hk. apply Pos2Z.inj. rewrite !shl_spec by lia.
  rewrite Z.pow_add_r by lia. lia.
Qed.

Lemma shl_add a b n : 0 <= n -> (shl a n + shl b n)%positive = shl (a + b) n.
Proof.
  intros Hn. apply Pos2Z.inj. rewrite Pos2Z.inj_add, !shl_spec by lia. lia.
Qed.

Lemma digits2_pos_bounds p :
  2 ^ (Zpos (digits2_pos p) - 1) <= Zpos p < 2 ^ Zpos (digits2_pos p).
Proof.
  induction p as [p IH|p IH|]; simpl digits2_pos.
  - rewrite Pos2Z.inj_succ.
    replace (Z.succ (Zpos (digits2_pos p)) - 1) with (Z.succ (Zpos (digits2_pos p) - 1)) by lia.
    rewrite !Z.pow_succ_r by lia. lia.
  - rewrite Pos2Z.inj_succ.
    replace (Z.succ (Zpos (digits2_pos p)) - 1) with (Z.succ (Zpos (digits2_pos p) - 1)) by lia.
    rewrite !Z.pow_succ_r by lia. lia.
  - simpl. lia.
Qed.

Lemma digits2_pos_shl p n :
  0 <= n -> Zpos (digits2_pos (shl p n)) = Zpos (digits2_pos p) + n.
Proof.
  intros Hn. destruct n as [|q|q]; simpl shl; [lia| |lia].
  induction q as [|q IH] using Pos.peano_ind.
  - simpl. lia.
  - rewrite Pos.iter_succ. simpl digits2_pos. lia.
Qed.

Lemma digits2_pos_le p : Zpos p < 2 ^ 53 -> Zpos (digits2_pos p) <= 53.
Proof.
  intros Hp. pose proof (digits2_pos_bounds p) as [Hlo _].
  assert (2 ^ (Zpos (digits2_pos p) - 1) < 2 ^ 53) as Hlt by lia.
  apply Z.pow_lt_mono_r_iff in Hlt; lia.
Qed.

Lemma iter_pos_shr_1 (q p : positive) :
  SpecFloat.iter_pos shr_1 q {| shr_m := Zpos (Pos.iter xO p q); shr_r := false; shr_s := false |}
  = {| shr_m := Zpos p; shr_r := false; shr_s := false |}.
Proof.
  revert p. induction q as [q IH|q IH|]; intros p; simpl.
  - rewrite !IH. reflexivity.
  - rewrite !IH. reflexivity.
  - reflexivity.
Qed.

Lemma fexp_small d : -1021 <= d -> fexp prec emax d = d - 53.
Proof. intros Hd. unfold fexp, emin, prec, emax. lia. Qed.

(** A mantissa of 53 digits with an exponent in range is left as it is. *)
Lemma binary_round_aux_canonical s m e :
  Zpos (digits2_pos m) = 53 -> -1074 <= e <= 971 ->
  binary_round_aux prec emax s (Zpos m) e loc_Exact = S754_finite s m e.
Proof.
  intros Hm He. unfold binary_round_aux, shr_fexp.
  cbn [Zdigits2]. rewrite Hm, fexp_small by lia.
  replace (53 + e - 53 - e) with 0 by lia.
  cbn [shr shr_record_of_loc loc_of_shr_record round_nearest_even shr_m
       Zdigits2].
  rewrite Hm, fexp_small by lia.
  replace (53 + e - 53 - e) with 0 by lia.
  cbn [shr shr_m].
  unfold emax, prec. destruct (Z.leb_spec e (1024 - 53)); [reflexivity|lia].
Qed.

(** Zero bits below a mantissa of 53 digits are shifted out. *)
Lemma binary_round_aux_shift s m q e :
  Zpos (digits2_pos m) = 53 -> -1074 <= e + Zpos q <= 971 ->
  binary_round_aux prec emax s (Zpos (Pos.iter xO m q)) e loc_Exact
  = S754_finite s m (e + Zpos q).
Proof.
  intros Hm He. unfold binary_round_aux, shr_fexp.
  cbn [Zdigits2].
  pose proof (digits2_pos_shl m (Zpos q) ltac:(lia)) as Hd. cbn [shl] in Hd.
  rewrite Hd, Hm, fexp_small by lia.
  replace (53 + Zpos q + e - 53 - e) with (Zpos q) by lia.
  cbn [shr shr_record_of_loc]. rewrite iter_pos_shr_1.
  cbn [loc_of_shr_record round_nearest_even shr_m Zdigits2].
  rewrite Hm, fexp_small by lia.
  replace (53 + (e + Zpos q) - 53 - (e + Zpos q)) with 0 by lia.
  cbn [shr shr_m shr_record_of_loc].
  unfold emax, prec. destruct (Z.leb_spec (e + Zpos q) (1024 - 53)); [reflexivity|lia].
Qed.

(** The float of [p * 2^n * 2^(-n)] is the canonical float of [p]. *)
Lemma binary_round_shl s p n :
  Zpos p < 2 ^ 53 -> 0 <= n <= 1000 ->
  binary_round prec emax s (shl p n) (- n)
  = S754_finite s (shl p (53 - Zpos (digits2_pos p))) (Zpos (digits2_pos p) - 53).
Proof.
  intros Hp Hn. pose proof (digits2_pos_le p Hp) as Hd.
  set (d := Zpos (digits2_pos p)) in *.
  assert (0 < d) as Hd0 by (unfold d; lia).
  unfold binary_round.
  rewrite digits2_pos_shl by lia. fold d.
  replace (d + n + - n) with d by lia. rewrite fexp_small by lia.
  unfold shl_align.
  destruct (d - 53 - - n) as [|q|q] eqn:Hdiff.
  - replace (53 - d) with n by lia. replace (d - 53) with (- n) by lia.
    apply binary_round_aux_canonical; [rewrite digits2_pos_shl by lia; fold d; lia|lia].
  - assert (shl p n = Pos.iter xO (shl p (53 - d)) q) as ->.
    { change (Pos.iter xO (shl p (53 - d)) q) with (shl (shl p (53 - d)) (Zpos q)).
      rewrite shl_shl by lia. f_equal. lia. }
    rewrite binary_round_aux_shift.
    + f_equal. lia.
    + rewrite digits2_pos_shl by lia. fold d. lia.
    + lia.
  - change (Pos.iter xO (shl p n) q) with (shl (shl p n) (Zpos q)).
    rewrite shl_shl by lia.
    replace (n + Zpos q) with (53 - d) by lia.
    apply binary_round_aux_canonical; [rewrite digits2_pos_shl by lia; fold d; lia|lia].
Qed.

Lemma of_Z_pos p :
  Zpos p < 2 ^ 53 ->
  of_Z (Zpos p)
  = S754_finite false (shl p (53 - Zpos (digits2_pos p))) (Zpos (digits2_pos p) - 53).
Proof.
  intros Hp. unfold of_Z, binary_normalize.
  apply (binary_round_shl false p 0 Hp). lia.
Qed.

Lemma of_Z_neg p :
  Zpos p < 2 ^ 53 ->
  of_Z (Zneg p)
  = S754_finite true (shl p (53 - Zpos (digits2_pos p))) (Zpos (digits2_pos p) - 53).
Proof.
  intros Hp. unfold of_Z, binary_normalize.
  apply (binary_round_shl true p 0 Hp). lia.
Qed.

(** An integer below [2^53] written with [n] zero bits below it is read as
    the float of the integer. *)
Lemma binary_normalize_scaled z n :
  Z.abs z < 2 ^ 53 -> 0 <= n <= 1000 ->
  binary_normalize prec emax (z * 2 ^ n) (- n) false = of_Z z.
Proof.
  intros Hz Hn. destruct z as [|p|p].
  - reflexivity.
  - rewrite <- shl_spec by lia. unfold binary_normalize.
    rewrite binary_round_shl by lia. symmetry. apply of_Z_pos. lia.
  - replace (Zneg p * 2 ^ n) with (Zneg (shl p n))
      by (rewrite <- !Pos2Z.opp_pos, shl_spec by lia; lia).
    unfold binary_normalize.
    rewrite binary_round_shl by lia. symmetry. apply of_Z_neg. lia.
Qed.

Lemma shl_align_shl p k e e' :
  0 <= k -> e' <= e -> fst (shl_align (shl p k) e e') = shl p (k + (e - e')).
Proof.
  intros Hk He. unfold shl_align.
  destruct (e' - e) as [|q|q] eqn:Hdiff; simpl fst.
  - f_equal. lia.
  - lia.
  - change (Pos.iter xO (shl p k) q) with (shl (shl p k) (Zpos q)).
    rewrite shl_shl by lia. f_equal. lia.
Qed.

Lemma SFadd_finite (sa sb : bool) (a b : positive) :
  Zpos a < 2 ^ 53 -> Zpos b < 2 ^ 53 ->
  Z.abs (cond_Zopp sa (Zpos a) + cond_Zopp sb (Zpos b)) < 2 ^ 53 ->
  SFadd prec emax (S754_finite sa (shl a (53 - Zpos (digits2_pos a))) (Zpos (digits2_pos a) - 53))
       (S754_finite sb (shl b (53 - Zpos (digits2_pos b))) (Zpos (digits2_pos b) - 53))
  = of_Z (cond_Zopp sa (Zpos a) + cond_Zopp sb (Zpos b)).
Proof.
  intros Ha Hb Hab.
  pose proof (digits2_pos_le a Ha) as Hda.
  pose proof (digits2_pos_le b Hb) as Hdb.
  set (da := Zpos (digits2_pos a)) in *. set (db := Zpos (digits2_pos b)) in *.
  assert (0 < da) by (unfold da; lia). assert (0 < db) by (unfold db; lia).
  unfold SFadd.
  rewrite !shl_align_shl by lia.
  set (n := - Z.min (da - 53) (db - 53)).
  replace (53 - da + (da - 53 - Z.min (da - 53) (db - 53))) with n by (unfold n; lia).
  replace (53 - db + (db - 53 - Z.min (da - 53) (db - 53))) with n by (unfold n; lia).
  replace (Z.min (da - 53) (db - 53)) with (- n) by (unfold n; lia).
  assert (0 <= n <= 1000) as Hn by (unfold n; lia).
  replace (cond_Zopp sa (Zpos (shl a n)) + cond_Zopp sb (Zpos (shl b n)))
    with ((cond_Zopp sa (Zpos a) + cond_Zopp sb (Zpos b)) * 2 ^ n).
  - apply binary_normalize_scaled; lia.
  - rewrite !shl_spec by lia. destruct sa, sb; cbn [cond_Zopp]; lia.
Qed.

Lemma SFadd_of_Z x y :
  Z.abs x < 2 ^ 53 -> Z.abs y < 2 ^ 53 -> Z.abs (x + y) < 2 ^ 53 ->
  SFadd prec emax (of_Z x) (of_Z y) = of_Z (x + y).
Proof.
  intros Hx Hy Hxy.
  destruct x as [|a|a].
  - rewrite Z.add_0_l.
    destruct y as [|b|b]; [reflexivity|rewrite of_Z_pos by lia|rewrite of_Z_neg by lia];
      reflexivity.
  - destruct y as [|b|b].
    + rewrite Z.add_0_r, of_Z_pos by lia. reflexivity.
    + rewrite (of_Z_pos a), (of_Z_pos b) by lia.
      apply (SFadd_finite false false); cbn [cond_Zopp]; lia.
    + rewrite (of_Z_pos a), (of_Z_neg b) by lia.
      apply (SFadd_finite false true); cbn [cond_Zopp]; lia.
  - destruct y as [|b|b].
    + rewrite Z.add_0_r, of_Z_neg by lia. reflexivity.
    + rewrite (of_Z_neg a), (of_Z_pos b) by lia.
      apply (SFadd_finite true false); cbn [cond_Zopp]; lia.
    + rewrite (of_Z_neg a), (of_Z_neg b) by lia.
      apply (SFadd_finite true true); cbn [cond_Zopp]; lia.
Qed.

End Binary64Integers.

(** ** The code on integer amounts *)

(** The run of the code on numbers [φ k] for integers [k] against its run on
    the integers themselves, each with the budget [|k|]: as long as the
    budgets add up to less than [bound], below which [φ] turns sums into
    sums, the two runs agree. *)

Section Simulation.
Context {A : Type} `{Arith A}.
Variable φ : Z → A.
Variable bound : Z.
Hypothesis φ_zero : φ 0 = zero.
Hypothesis φ_add : ∀ x y : Z,
  (Z.abs x < bound)%Z → (Z.abs y < bound)%Z → (Z.abs (x + y) < bound)%Z →
  add (φ x) (φ y) = φ (x + y)%Z.

Implicit Types p q a : Z * Z.

Lemma budgeted_zero : budgeted zero.
Proof. unfold budgeted. simpl. lia. Qed.

Lemma budgeted_add p q : budgeted p → budgeted q → budgeted (add p q).
Proof. unfold budgeted. simpl. lia. Qed.

Lemma budgeted_weight p : budgeted p → (0 ≤ p.2)%Z.
Proof. unfold budgeted. lia. Qed.

Lemma embed_zero : embed φ zero = zero.
Proof. exact φ_zero. Qed.

Lemma embed_add p q :
  budgeted p → budgeted q → ((add p q).2 < bound)%Z →
  add (embed φ p) (embed φ q) = embed φ (add p q).
Proof.
  unfold budgeted, embed. simpl. intros Hp Hq Hb. apply φ_add; lia.
Qed.

(** *** Folds over a dictionary *)

Section Folds.
Context {K VW VA : Type}.
Variable h : VW → VA.
Variable fA : K → VA → A → A.
Variable fW : K → VW → Z * Z → Z * Z.
Variable P : VW → Prop.
Hypothesis step_budgeted : ∀ k v acc,
  P v → budgeted acc → budgeted (fW k v acc) ∧ (acc.2 ≤ (fW k v acc).2)%Z.
Hypothesis step_embed : ∀ k v acc,
  P v → budgeted acc → ((fW k v acc).2 < bound)%Z →
  fA k (h v) (embed φ acc) = embed φ (fW k v acc).

Lemma foldr_budgeted (l : list (K * VW)) a :
  Forall (λ kv, P kv.2) l → budgeted a →
  budgeted (foldr (uncurry fW) a l) ∧ (a.2 ≤ (foldr (uncurry fW) a l).2)%Z.
Proof.
  intros Hl Ha. induction Hl as [|[k v] l Hv Hl IH]; simpl.
  - split; [done|lia].
  - destruct IH as [IHb IHw].
    destruct (step_budgeted k v _ Hv IHb) as [Hb Hw]. split; [done|lia].
Qed.

Lemma foldr_embed (l : list (K * VW)) a :
  Forall (λ kv, P kv.2) l → budgeted a →
  ((foldr (uncurry fW) a l).2 < bound)%Z →
  foldr (uncurry (λ k, fA k ∘ h)) (embed φ a) l
  = embed φ (foldr (uncurry fW) a l).
Proof.
  intros Hl Ha. induction Hl as [|[k v] l Hv Hl IH]; simpl; intros Hb.
  - done.
  - destruct (foldr_budgeted l a Hl Ha) as [Hbl Hwl].
    destruct (step_budgeted k v _ Hv Hbl) as [_ Hw].
    rewrite IH by lia. by apply step_embed.
Qed.

End Folds.

Lemma map_fold_budgeted {VW : Type} (fW : string → VW → Z * Z → Z * Z)
    (P : VW → Prop) (m : gmap string VW) a :
  (∀ k v acc, P v → budgeted acc →
     budgeted (fW k v acc) ∧ (acc.2 ≤ (fW k v acc).2)%Z) →
  map_Forall (λ _, P) m → budgeted a →
  budgeted (map_fold fW a m) ∧ (a.2 ≤ (map_fold fW a m).2)%Z.
Proof.
  intros Hstep Hm Ha. rewrite map_fold_foldr.
  apply (foldr_budgeted fW P Hstep); [|done].
  apply map_Forall_to_list in Hm.
  eapply Forall_impl; [exact Hm|]. by intros [k v].
Qed.

Lemma map_fold_embed {VW VA : Type} (h : VW → VA) (fA : string → VA → A → A)
    (fW : string → VW → Z * Z → Z * Z) (P : VW → Prop)
    (m : gmap string VW) a :
  (∀ k v acc, P v → budgeted acc →
     budgeted (fW k v acc) ∧ (acc.2 ≤ (fW k v acc).2)%Z) →
  (∀ k v acc, P v → budgeted acc → ((fW k v acc).2 < bound)%Z →
     fA k (h v) (embed φ acc) = embed φ (fW k v acc)) →
  map_Forall (λ _, P) m → budgeted a →
  ((map_fold fW a m).2 < bound)%Z →
  map_fold fA (embed φ a) (h <$> m) = embed φ (map_fold fW a m).
Proof.
  intros Hstep Hembed Hm Ha. rewrite map_fold_fmap, !map_fold_foldr.
  apply (foldr_embed h fA fW P Hstep Hembed); [|done].
  apply map_Forall_to_list in Hm.
  eapply Forall_impl; [exact Hm|]. by intros [k v].
Qed.

(** *** The totals *)

Implicit Types units : gmap string (Z * Z).
Implicit Types subcategories : gmap string (gmap string (Z * Z)).
Implicit Types service_data : gmap string (gmap string (gmap string (Z * Z))).

Local Abbreviation embed2 := (fmap (M:=gmap string) (embed φ)).
Local Abbreviation embed3 := (fmap (M:=gmap string) embed2).

Lemma add_step_budgeted (k : string) p acc :
  budgeted p → budgeted acc →
  budgeted (add acc p) ∧ (acc.2 ≤ (add acc p).2)%Z.
Proof.
  intros Hp Hacc. split; [by apply budgeted_add|].
  apply budgeted_weight in Hp. simpl. lia.
Qed.

Lemma units_total_budgeted units a :
  map_Forall (λ _, budgeted) units → budgeted a →
  budgeted (units_total a units) ∧ (a.2 ≤ (units_total a units).2)%Z.
Proof. apply map_fold_budgeted, add_step_budgeted. Qed.

Lemma units_total_embed units a :
  map_Forall (λ _, budgeted) units → budgeted a →
  ((units_total a units).2 < bound)%Z →
  units_total (embed φ a) (embed φ <$> units)
  = embed φ (units_total a units).
Proof.
  apply (map_fold_embed (embed φ) (λ _ x acc, add acc x)
           (λ _ x acc, add acc x) budgeted);
    [apply add_step_budgeted|].
  intros _ p acc Hp Hacc Hb. by apply embed_add.
Qed.

Lemma category_total_budgeted subcategories :
  map_Forall (λ _, map_Forall (λ _, budgeted)) subcategories →
  budgeted (category_total subcategories).
Proof.
  intros Hsubs.
  apply (map_fold_budgeted (λ _ units acc, units_total acc units)
           (map_Forall (λ _, budgeted)) subcategories zero);
    [|done|apply budgeted_zero].
  intros _ units acc. apply units_total_budgeted.
Qed.

Lemma category_total_embed subcategories :
  map_Forall (λ _, map_Forall (λ _, budgeted)) subcategories →
  ((category_total subcategories).2 < bound)%Z →
  category_total (embed2 <$> subcategories)
  = embed φ (category_total subcategories).
Proof.
  intros Hsubs Hb. unfold category_total. rewrite <- embed_zero.
  apply (map_fold_embed embed2
           (λ _ us acc, units_total acc us)
           (λ _ units acc, units_total acc units)
           (map_Forall (λ _, budgeted)));
    [..|done|apply budgeted_zero|done].
  - intros _ units acc. apply units_total_budgeted.
  - intros _ units acc. apply units_total_embed.
Qed.

Lemma sum_values_totals_embed service_data :
  map_Forall (λ _, map_Forall (λ _, map_Forall (λ _, budgeted)))
             service_data →
  ((sum_values (calculate_category_totals service_data)).2 < bound)%Z →
  sum_values
    (calculate_category_totals (embed3 <$> service_data))
  = embed φ (sum_values (calculate_category_totals service_data)).
Proof.
  intros Hsd. unfold sum_values, calculate_category_totals.
  rewrite <- map_fmap_compose, (map_fold_fmap _ category_total).
  rewrite <- embed_zero.
  apply (map_fold_embed (category_total ∘ embed3)
           (λ _ x acc, add acc x)
           (λ i, (λ x acc, add acc x) ∘ category_total)
           (map_Forall (λ _, map_Forall (λ _, budgeted))));
    [..|done|apply budgeted_zero].
  - intros _ subs acc Hsubs Hacc. simpl.
    apply (add_step_budgeted ""); [|done].
    by apply category_total_budgeted.
  - intros _ subs acc Hsubs Hacc Hb. simpl in *.
    pose proof (category_total_budgeted subs Hsubs) as Hcat.
    pose proof (budgeted_weight _ Hacc) as Hw.
    rewrite category_total_embed by (done || lia).
    by apply embed_add.
Qed.

(** *** The accumulation *)

Implicit Types e : entry (Z * Z).

Lemma leaves_bounded_empty (w : Z) : leaves_bounded ∅ w.
Proof. intros c s u p Hp. unfold lookup3 in Hp. by rewrite lookup_empty in Hp. Qed.

Lemma leaves_bounded_current service_data (w : Z) (c s u : string) :
  leaves_bounded service_data w → (0 ≤ w)%Z →
  budgeted (default zero (lookup3 service_data c s u)) ∧
  ((default zero (lookup3 service_data c s u)).2 ≤ w)%Z.
Proof.
  intros Hsd Hw. destruct (lookup3 service_data c s u) as [p|] eqn:Hp; simpl.
  - by eapply Hsd.
  - split; [apply budgeted_zero|done].
Qed.

Lemma leaves_bounded_add_entry service_data e (w : Z) :
  leaves_bounded service_data w → (0 ≤ w)%Z → budgeted (e_amount e) →
  leaves_bounded (add_entry service_data e) (w + (e_amount e).2).
Proof.
  intros Hsd Hw He c s u p Hp.
  pose proof (budgeted_weight _ He) as Hk.
  destruct (decide ((c, s, u) = triple e)) as [Heq|Hne].
  - injection Heq as -> -> ->. rewrite lookup3_add_entry_eq in Hp.
    injection Hp as <-.
    destruct (leaves_bounded_current service_data w (e_category e)
                (e_subcategory e) (e_unit e) Hsd Hw) as [Hb Hle].
    split; [by apply budgeted_add|simpl in *; lia].
  - rewrite lookup3_add_entry_ne in Hp by done.
    destruct (Hsd _ _ _ _ Hp) as [Hb Hle]. split; [done|lia].
Qed.

Lemma leaves_bounded_Forall service_data (w : Z) :
  leaves_bounded service_data w →
  map_Forall (λ _, map_Forall (λ _, map_Forall (λ _, budgeted)))
             service_data.
Proof.
  intros Hsd c subs Hc s units Hs u p Hu.
  apply (Hsd c s u p). unfold lookup3. by rewrite Hc, Hs.
Qed.

Lemma add_entry_embed service_data e :
  budgeted (default zero (lookup3 service_data (e_category e)
                            (e_subcategory e) (e_unit e))) →
  budgeted (e_amount e) →
  ((default zero (lookup3 service_data (e_category e) (e_subcategory e)
                    (e_unit e))).2 + (e_amount e).2 < bound)%Z →
  add_entry (embed3 <$> service_data) (entry_map (embed φ) e)
  = embed3 <$> add_entry service_data e.
Proof.
  intros Hcur He Hb. rewrite !add_entry_update_default. symmetry.
  apply update_default_fmap; [apply fmap_empty|].
  apply update_default_fmap; [apply fmap_empty|].
  apply update_default_fmap; [apply embed_zero|].
  rewrite lookup3_get_or_empty in Hcur, Hb. unfold get_or_empty in Hcur, Hb.
  symmetry. by apply embed_add.
Qed.

Lemma weight_sum_nonneg (es : list (entry (Z * Z))) :
  Forall (λ e, budgeted (e_amount e)) es → (0 ≤ weight_sum es)%Z.
Proof.
  induction 1 as [|e es He _ IH]; simpl; [done|].
  apply budgeted_weight in He. lia.
Qed.

Lemma foldl_add_entry_embed (es : list (entry (Z * Z))) service_data (w : Z) :
  leaves_bounded service_data w → (0 ≤ w)%Z →
  Forall (λ e, budgeted (e_amount e)) es →
  (w + weight_sum es < bound)%Z →
  foldl add_entry (embed3 <$> service_data) (entry_map (embed φ) <$> es)
  = embed3 <$> foldl add_entry service_data es ∧
  leaves_bounded (foldl add_entry service_data es) (w + weight_sum es).
Proof.
  intros Hsd Hw Hes. revert service_data w Hsd Hw.
  induction Hes as [|e es He Hes IH]; intros sd w Hsd Hw Hb; simpl in *.
  - split; [done|]. by rewrite Z.add_0_r.
  - pose proof (weight_sum_nonneg es Hes) as Hrest.
    pose proof (budgeted_weight _ He) as Hk.
    destruct (leaves_bounded_current sd w (e_category e) (e_subcategory e)
                (e_unit e) Hsd Hw) as [Hcur Hle].
    rewrite add_entry_embed by (done || lia).
    rewrite Z.add_assoc.
    apply IH; [by apply leaves_bounded_add_entry|lia..].
Qed.

Lemma aggregate_entries_embed (es : list (entry (Z * Z))) :
  Forall (λ e, budgeted (e_amount e)) es → (weight_sum es < bound)%Z →
  aggregate_entries (entry_map (embed φ) <$> es)
  = embed3 <$> aggregate_entries es ∧
  leaves_bounded (aggregate_entries es) (weight_sum es).
Proof.
  intros Hes Hb. unfold aggregate_entries.
  rewrite <- (fmap_empty embed3).
  apply (foldl_add_entry_embed es ∅ 0);
    [apply leaves_bounded_empty|done|done|lia].
Qed.

(** *** The sum of the amounts *)

Lemma foldl_add_weight (es : list (entry (Z * Z))) a :
  (foldl add a (e_amount <$> es)).2 = (a.2 + weight_sum es)%Z.
Proof.
  revert a. induction es as [|e es IH]; intros a; simpl.
  - lia.
  - rewrite IH. simpl. lia.
Qed.

Lemma foldl_add_embed (es : list (entry (Z * Z))) a :
  Forall (λ e, budgeted (e_amount e)) es → budgeted a →
  (a.2 + weight_sum es < bound)%Z →
  foldl add (embed φ a) (embed φ <$> (e_amount <$> es))
  = embed φ (foldl add a (e_amount <$> es)).
Proof.
  intros Hes. revert a.
  induction Hes as [|e es He Hes IH]; intros a Ha Hb; simpl in *; [done|].
  pose proof (weight_sum_nonneg es Hes) as Hrest.
  rewrite embed_add by (done || simpl; lia).
  apply IH; [by apply budgeted_add|simpl; lia].
Qed.

(** On numbers [φ k] whose budgets add up to less than [bound], the sum of
    the category totals is the sum of the amounts. *)
Lemma category_totals_sum_embed (es : list (entry (Z * Z))) :
  Forall (λ e, budgeted (e_amount e)) es → (weight_sum es < bound)%Z →
  sum_values (calculate_category_totals
                (aggregate_entries (entry_map (embed φ) <$> es)))
  = sum_list (embed φ <$> (e_amount <$> es)).
Proof.
  intros Hes Hb.
  destruct (aggregate_entries_embed es Hes Hb) as [-> Hleaves].
  assert (sum_values (calculate_category_totals (aggregate_entries es))
          = sum_list (e_amount <$> es)) as Hexact.
  { unfold aggregate_entries. rewrite sum_values_foldl.
    unfold calculate_category_totals, sum_values, sum_list.
    by rewrite fmap_empty, map_fold_empty. }
  rewrite sum_values_totals_embed;
    [|by eapply leaves_bounded_Forall|].
  - rewrite Hexact. unfold sum_list. rewrite <- embed_zero.
    symmetry. apply foldl_add_embed; [done|apply budgeted_zero|simpl; lia].
  - rewrite Hexact. unfold sum_list. rewrite foldl_add_weight. simpl. lia.
Qed.

Lemma foldl_add_value (es : list (entry (Z * Z))) a :
  (foldl add a (e_amount <$> es)).1 = (a.1 + value_sum es)%Z.
Proof.
  revert a. induction es as [|e es IH]; intros a; simpl.
  - lia.
  - rewrite IH. simpl. lia.
Qed.

Lemma sum_list_embed (es : list (entry (Z * Z))) :
  Forall (λ e, budgeted (e_amount e)) es → (weight_sum es < bound)%Z →
  sum_list (embed φ <$> (e_amount <$> es)) = φ (value_sum es).
Proof.
  intros Hes Hb. unfold sum_list. rewrite <- embed_zero.
  rewrite foldl_add_embed by (done || apply budgeted_zero || simpl; lia).
  unfold embed. by rewrite foldl_add_value.
Qed.

(** Entries with amounts [φ k] are the image of budgeted entries. *)
Lemma retag_embed (es : list (entry A)) (ks : list Z) :
  e_amount <$> es = φ <$> ks →
  entry_map (embed φ) <$> zip_with retag es (weigh <$> ks) = es ∧
  Forall (λ e, budgeted (e_amount e)) (zip_with retag es (weigh <$> ks)) ∧
  weight_sum (zip_with retag es (weigh <$> ks)) = abs_sum ks.
Proof.
  revert ks. induction es as [|e es IH]; intros [|k ks] Heq;
    simplify_eq/=; [done|].
  destruct (IH ks) as (Hes & Hall & Hsum); [done|].
  split_and!.
  - rewrite Hes. f_equal. destruct e; simpl in *. by subst.
  - constructor; [|done]. unfold budgeted. simpl. lia.
  - by rewrite Hsum.
Qed.

Lemma retag_value_sum (es : list (entry A)) (ks : list Z) :
  length es = length ks →
  value_sum (zip_with retag es (weigh <$> ks)) = Z_sum ks.
Proof.
  revert ks. induction es as [|e es IH]; intros [|k ks] Hlen;
    simplify_eq/=; [done|].
  by rewrite IH.
Qed.

End Simulation.

(** ** Binary64 amounts that are integers *)

Lemma of_Z_zero : of_Z 0 = zero.
Proof. reflexivity. Qed.

Lemma add_of_Z (x y : Z) :
  (Z.abs x < 2 ^ 53)%Z → (Z.abs y < 2 ^ 53)%Z → (Z.abs (x + y) < 2 ^ 53)%Z →
  add (of_Z x) (of_Z y) = of_Z (x + y).
Proof. apply SFadd_of_Z. Qed.

(** C1, as the code has it: when the amounts of the rows that have a
    category and a number for amount are integers whose absolute values add
    up to less than [2^53], so that no addition rounds, the sum of the
    category totals of the analyzed rows is the sum of those amounts, and
    both are the float of the sum of the integers. *)
Theorem category_totals_sum_binary64 (parse : string → option float)
    (df : list (row float)) (ks : list Z) :
  surviving_amounts parse df = of_Z <$> ks →
  (abs_sum ks < 2 ^ 53)%Z →
  sum_values (calculate_category_totals (analyze_azure_services parse df))
  = sum_list (surviving_amounts parse df) ∧
  sum_list (surviving_amounts parse df) = of_Z (Z_sum ks).
Proof.
  intros Hks Hb. rewrite <- df_clean_amounts in Hks |- *.
  unfold analyze_azure_services.
  destruct (retag_embed of_Z (df_clean parse df) ks Hks)
    as (Hes & Hall & Hsum).
  assert (length (df_clean parse df) = length ks) as Hlen.
  { by rewrite <- (length_fmap e_amount), Hks, length_fmap. }
  pose proof (retag_value_sum (df_clean parse df) ks Hlen) as Hval.
  set (es := zip_with retag (df_clean parse df) (weigh <$> ks)) in *.
  rewrite <- Hes. rewrite <- Hsum in Hb.
  assert (e_amount <$> (entry_map (embed of_Z) <$> es)
          = embed of_Z <$> (e_amount <$> es)) as ->.
  { by rewrite <- !list_fmap_compose. }
  split.
  - by apply (category_totals_sum_embed of_Z (2 ^ 53) of_Z_zero add_of_Z).
  - rewrite <- Hval.
    by apply (sum_list_embed of_Z (2 ^ 53) of_Z_zero add_of_Z).
Qed.

Lemma weight_sum_Permutation (es1 es2 : list (entry (Z * Z))) :
  es1 ≡ₚ es2 → weight_sum es1 = weight_sum es2.
Proof.
  induction 1 as [|e es1 es2 _ IH|e1 e2 es|es1 es2 es3 _ IH1 _ IH2]; simpl.
  - done.
  - by rewrite IH.
  - lia.
  - by rewrite IH1.
Qed.

(** For entries with integer amounts whose absolute values add up to less
    than [2^53], the order of the entries does not matter in binary64
    either. *)
Lemma aggregate_entries_Permutation_binary64 (zs1 zs2 : list (entry Z)) :
  zs1 ≡ₚ zs2 →
  (abs_sum (e_amount <$> zs1) < 2 ^ 53)%Z →
  aggregate_entries (entry_map of_Z <$> zs1)
  = aggregate_entries (entry_map of_Z <$> zs2).
Proof.
  intros Hperm Hb.
  assert (∀ zs : list (entry Z),
            entry_map of_Z <$> zs
            = entry_map (embed of_Z) <$> (entry_map weigh <$> zs)) as Himage.
  { intros zs. rewrite <- list_fmap_compose. apply list_fmap_ext.
    by intros i [c s u k] _. }
  assert (∀ zs : list (entry Z),
            Forall (λ e, budgeted (e_amount e)) (entry_map weigh <$> zs))
    as Hall.
  { intros zs. apply Forall_fmap, Forall_forall. intros z _.
    unfold budgeted. simpl. lia. }
  assert (∀ zs : list (entry Z),
            weight_sum (entry_map weigh <$> zs) = abs_sum (e_amount <$> zs))
    as Hsum.
  { induction zs as [|z zs IH]; [done|]. rewrite !fmap_cons.
    unfold weight_sum, abs_sum in *. cbn [foldr]. by rewrite IH. }
  assert (entry_map weigh <$> zs1 ≡ₚ entry_map weigh <$> zs2) as HpermW
    by by apply fmap_Permutation.
  rewrite !Himage.
  destruct (aggregate_entries_embed of_Z (2 ^ 53) of_Z_zero add_of_Z
              (entry_map weigh <$> zs1)) as [-> _];
    [done|by rewrite Hsum|].
  destruct (aggregate_entries_embed of_Z (2 ^ 53) of_Z_zero add_of_Z
              (entry_map weigh <$> zs2)) as [-> _];
    [done|by rewrite <- (weight_sum_Permutation _ _ HpermW), Hsum|].
  f_equal. by apply aggregate_entries_Permutation.
Qed.

(** * The code on concrete inputs *)

(** The scenario of three rows: the two amounts of one triple are added, the
    missing subcategory becomes the sentinel. *)
Example scenario_aggregate :
  analyze_azure_services no_text scenario_rows
  = {[ "Compute" := {[ "VM" := {[ "Hours" := of_Z 15 ]} ]};
       "Storage" := {[ "N/A" := {[ "GB" := of_Z 3 ]} ]} ]} ∧
  calculate_category_totals (analyze_azure_services no_text scenario_rows)
  = {[ "Compute" := of_Z 15; "Storage" := of_Z 3 ]}.
Proof. split; vm_compute; reflexivity. Qed.

Example empty_aggregate :
  analyze_azure_services (A:=float) no_text [] = ∅ ∧
  calculate_category_totals (A:=float) ∅ = ∅.
Proof. split; reflexivity. Qed.

Example compare_scenario :
  compare_service_data
    (Some ({[ "A" := ∅; "B" := ∅ ]} : gmap string (gmap string (gmap string float))))
    (Some {[ "B" := ∅; "C" := ∅ ]})
  = (["A"], ["C"]).
Proof. vm_compute. reflexivity. Qed.

(** Keys differ when their letters differ in case. *)
Example compare_case_sensitive :
  compare_service_data
    (Some ({[ "compute" := ∅ ]} : gmap string (gmap string (gmap string float))))
    (Some {[ "Compute" := ∅ ]})
  = (["compute"], ["Compute"]).
Proof. vm_compute. reflexivity. Qed.

(** The rows whose amounts are [10^16, 1, -10^16, 10^16, 1, -10^16]: the
    category totals add up to 1, the amounts in the order of the rows to 0,
    and the integers to 2. *)
Example rounding_values :
  sum_values (calculate_category_totals
                (analyze_azure_services no_text rounding_rows)) = of_Z 1 ∧
  sum_list (surviving_amounts no_text rounding_rows) = of_Z 0 ∧
  surviving_amounts no_text rounding_rows
  = of_Z <$> [10000000000000000; 1; -10000000000000000;
              10000000000000000; 1; -10000000000000000]%Z ∧
  Z_sum [10000000000000000; 1; -10000000000000000;
         10000000000000000; 1; -10000000000000000]%Z = 2%Z.
Proof. split_and!; vm_compute; reflexivity. Qed.

(** C1 fails on binary64: for six rows whose amounts add up to 2, the sum of
    the category totals is 1.0 and the sum of the amounts in the order of the
    rows is 0.0. *)
Lemma category_totals_sum_rounding :
  sum_values (calculate_category_totals
                (analyze_azure_services no_text rounding_rows))
  ≠ sum_list (surviving_amounts no_text rounding_rows).
Proof. vm_compute. discriminate. Qed.

(** C2 fails on binary64: three entries of one triple accumulate to 0.0 in
    one order and to 1.0 in another. *)
Lemma aggregate_entries_order_matters :
  rounding_entries ≡ₚ rounding_entries_permuted ∧
  aggregate_entries rounding_entries
  ≠ aggregate_entries rounding_entries_permuted.
Proof.
  split.
  - unfold rounding_entries, rounding_entries_permuted.
    apply perm_skip, perm_swap.
  - intros Heq.
    apply (f_equal (λ sd, lookup3 sd "Compute" "VM" "Hours")) in Heq.
    vm_compute in Heq. discriminate.
Qed.

(** C4 fails for a blank category: the row is kept and filed under the blank
    key. *)
Lemma blank_category_row_kept :
  ¬ skips_blank_categories no_text blank_category_row ∧
  lookup3 (analyze_azure_services no_text [blank_category_row])
          "   " "VM" "Hours" = Some (of_Z 5).
Proof.
  split; [|vm_compute; reflexivity].
  intros [_ Hskip]. discriminate Hskip. left. reflexivity.
Qed.

(** C6 fails in the side-by-side rendering: with [None] for the old file the
    loop raises, where an empty dictionary gives the block of a new
    category. *)
Example display_None_raises :
  display_dual_service_comparison None (Some compute_only) = Raise TypeError ∧
  display_dual_service_comparison (Some compute_only) None = Raise TypeError ∧
  display_dual_service_comparison (Some ∅) (Some compute_only)
  = Ok [(LMissing "Compute", LCategoryNew "Compute");
        (LEmpty, LSubcategory "VM");
        (LEmpty, LUnit "Hours" (of_Z 15));
        (LEmpty, LTotal (of_Z 15));
        (LRule, LRule)] ∧
  compare_service_data None (Some compute_only)
  = compare_service_data (Some ∅) (Some compute_only).
Proof. split_and!; vm_compute; reflexivity. Qed.

Example unit_changes_signs :
  unit_changes {[ "Hours" := 15%Z; "Days" := 2%Z; "GB" := 7%Z ]}
               {[ "Hours" := 10%Z; "Days" := 2%Z; "Seats" := 4%Z ]}
  = [UnitChange "Days" 2 2 0; UnitChange "GB" 7 0 (-7);
     UnitChange "Hours" 15 10 (-5); UnitChange "Seats" 0 4 4]%Z.
Proof. vm_compute. reflexivity. Qed.

Example table_data_signs :
  table_data fmt2_Z {[ "Hours" := 15%Z; "Days" := 2%Z ]}
                    {[ "Hours" := 10%Z; "Seats" := 4%Z ]}
  = [["Unit"; "Old Amount"; "New Amount"; "Change"];
     ["Days"; "2.00"; "0.00"; "-2.00"];
     ["Hours"; "15.00"; "10.00"; "-5.00"];
     ["Seats"; "0.00"; "4.00"; "+4.00"]].
Proof. vm_compute. reflexivity. Qed.

Example normalize_sentinels :
  normalize no_text null_subcategory_row
  = Some (Entry "Storage" "N/A" "N/A" (of_Z 5)) ∧
  normalize no_text blank_subcategory_row
  = Some (Entry "Storage" "N/A" "GB" (of_Z 5)).
Proof. split; vm_compute; reflexivity. Qed.

Example category_totals_sum_integers :
  sum_values (calculate_category_totals
                (analyze_azure_services no_text integer_rows))
  = sum_list (surviving_amounts no_text integer_rows).
Proof. exact (category_totals_sum no_text integer_rows). Qed.

Lemma category_totals_sum_binary64_witness :
  surviving_amounts no_text scenario_rows = of_Z <$> [10; 5; 3]%Z ∧
  (abs_sum [10; 5; 3]%Z < 2 ^ 53)%Z ∧
  sum_values (calculate_category_totals
                (analyze_azure_services no_text scenario_rows))
  = sum_list (surviving_amounts no_text scenario_rows) ∧
  sum_list (surviving_amounts no_text scenario_rows)
  = of_Z (Z_sum [10; 5; 3]%Z).
Proof.
  assert (surviving_amounts no_text scenario_rows = of_Z <$> [10; 5; 3]%Z)
    as Hks by reflexivity.
  assert (abs_sum [10; 5; 3]%Z < 2 ^ 53)%Z as Hb by reflexivity.
  split; [exact Hks|]. split; [exact Hb|].
  exact (category_totals_sum_binary64 no_text scenario_rows [10; 5; 3]%Z
           Hks Hb).
Defined.

Lemma aggregate_entries_stable_witness :
  (∀ t, entries_of t [entry64 "Compute" 10000000000000000;
                      entry64 "Storage" 1;
                      entry64 "Compute" (-10000000000000000)]
        = entries_of t [entry64 "Storage" 1;
                        entry64 "Compute" 10000000000000000;
                        entry64 "Compute" (-10000000000000000)]) ∧
  aggregate_entries [entry64 "Compute" 10000000000000000;
                     entry64 "Storage" 1;
                     entry64 "Compute" (-10000000000000000)]
  = aggregate_entries [entry64 "Storage" 1;
                       entry64 "Compute" 10000000000000000;
                       entry64 "Compute" (-10000000000000000)].
Proof.
  assert (∀ t, entries_of t [entry64 "Compute" 10000000000000000;
                             entry64 "Storage" 1;
                             entry64 "Compute" (-10000000000000000)]
               = entries_of t [entry64 "Storage" 1;
                               entry64 "Compute" 10000000000000000;
                               entry64 "Compute" (-10000000000000000)])
    as Hall.
  { intros t. unfold entries_of. rewrite !filter_cons, !filter_nil.
    unfold triple, entry64. simpl.
    repeat case_decide; simplify_eq; done. }
  split; [exact Hall|].
  exact (aggregate_entries_stable _ _ Hall).
Defined.

Lemma normalize_sentinel_rule_witness :
  service_category blank_subcategory_row = Str "Storage" ∧
  to_numeric no_text (total blank_subcategory_row) = Some (of_Z 5) ∧
  ∃ subcategory unit,
    normalize no_text blank_subcategory_row
    = Some (Entry "Storage" subcategory unit (of_Z 5)) ∧
    sentinel_rule (service_sub_category blank_subcategory_row) subcategory ∧
    sentinel_rule (service_unit blank_subcategory_row) unit ∧
    (service_sub_category blank_subcategory_row = NaN ∨
     strip (py_str (service_sub_category blank_subcategory_row)) = "" →
     subcategory = "N/A").
Proof.
  split; [reflexivity|]. split; [reflexivity|].
  apply (normalize_sentinel_rule no_text blank_subcategory_row "Storage"
           (of_Z 5)); reflexivity.
Defined.



Example detailed_comparison_zero_change :
  UnitChange "Days"
    (default zero (lookup3 old_integers "Compute" "VM" "Days"))
    (default zero (lookup3 new_integers "Compute" "VM" "Days"))
    (sub (default zero (lookup3 new_integers "Compute" "VM" "Days"))
         (default zero (lookup3 old_integers "Compute" "VM" "Days")))
  = UnitChange "Days" 2%Z 2%Z 0%Z.
Proof. vm_compute. reflexivity. Qed.

Lemma analyze_keys_witness :
  good_key "VM" ∧ ∀ u, is_Some (({[ "Hours" := 15%Z ]} : gmap string Z) !! u) → good_key u.
Proof.
  apply (analyze_keys_trimmed_or_sentinel no_text integer_rows "Compute" "VM"
           {[ "VM" := {[ "Hours" := 15%Z ]} ]}).
  - vm_compute. reflexivity.
  - vm_compute. reflexivity.
Defined.

(** * Further properties *)

(** ** What the dictionary holds *)

Section Stored.
Context {A : Type} `{Arith A}.
Variable parse : string → option A.
Implicit Types service_data : gmap string (gmap string (gmap string A)).
Implicit Types e : entry A.
Implicit Types es : list (entry A).

Lemma entries_of_cons (t : string * string * string) e es :
  entries_of t (e :: es)
  = if decide (triple e = t) then e :: entries_of t es else entries_of t es.
Proof. unfold entries_of. by rewrite filter_cons. Qed.

Lemma lookup3_foldl_add_entry service_data es (c s u : string) :
  lookup3 (foldl add_entry service_data es) c s u =
    match entries_of (c, s, u) es with
    | [] => lookup3 service_data c s u
    | l => Some (foldl add (default zero (lookup3 service_data c s u))
                       (e_amount <$> l))
    end.
Proof.
  revert service_data. induction es as [|e es IH]; intros sd; [done|].
  cbn [foldl]. rewrite IH, entries_of_cons. case_decide as Ht.
  - unfold triple in Ht. simplify_eq. rewrite lookup3_add_entry_eq.
    by destruct (entries_of _ es).
  - rewrite lookup3_add_entry_ne by done. done.
Qed.

Lemma entries_of_nil_iff (t : string * string * string) es :
  entries_of t es = [] ↔ t ∉ triple <$> es.
Proof.
  unfold entries_of. induction es as [|e es IH]; simpl.
  - split; [intros _; apply not_elem_of_nil|done].
  - rewrite filter_cons, not_elem_of_cons. case_decide as Ht.
    + split; [done|]. intros [Hne _]. by destruct Hne.
    + rewrite IH. split; [by intros ?; split|by intros [_ ?]].
Qed.

(** X1: the total stored under a category, subcategory and unit is the sum,
    added up from zero in the order of the input, of the amounts of the
    rows the analysis keeps for that triple; a triple without such a row has
    no total. *)
Theorem stored_total_is_running_sum (df : list (row A)) (c s u : string) :
  let rows := entries_of (c, s, u) (df_clean parse df) in
  lookup3 (analyze_azure_services parse df) c s u
  = if nonempty rows then Some (sum_list (e_amount <$> rows)) else None.
Proof.
  simpl. unfold analyze_azure_services, aggregate_entries.
  rewrite lookup3_foldl_add_entry. by destruct (entries_of _ _).
Qed.

Lemma lookup3_aggregate_is_Some es (c s u : string) :
  is_Some (lookup3 (aggregate_entries es) c s u) ↔ (c, s, u) ∈ triple <$> es.
Proof.
  unfold aggregate_entries. rewrite lookup3_foldl_add_entry.
  destruct (entries_of _ es) as [|e l] eqn:Hl.
  - apply entries_of_nil_iff in Hl. split; [|done].
    intros [x Hx]. done.
  - split; [|by eexists]. intros _.
    destruct (decide ((c, s, u) ∈ triple <$> es)) as [|Hn]; [done|].
    apply entries_of_nil_iff in Hn. congruence.
Qed.

Lemma dom_add_entry service_data e :
  dom (add_entry service_data e) = {[e_category e]} ∪ dom service_data.
Proof. unfold add_entry. by rewrite dom_insert_L. Qed.

Lemma dom_foldl_add_entry service_data es :
  dom (foldl add_entry service_data es)
  = dom service_data ∪ list_to_set (e_category <$> es).
Proof.
  revert service_data. induction es as [|e es IH]; intros sd.
  - by rewrite fmap_nil, list_to_set_nil, (right_id_L ∅ (∪)).
  - cbn [foldl]. rewrite IH, dom_add_entry, fmap_cons, list_to_set_cons.
    by rewrite (comm_L (∪) {[e_category e]} (dom sd)), (assoc_L (∪)).
Qed.

Lemma dom_analyze (df : list (row A)) :
  dom (analyze_azure_services parse df)
  = list_to_set (e_category <$> df_clean parse df).
Proof.
  unfold analyze_azure_services, aggregate_entries.
  by rewrite dom_foldl_add_entry, dom_empty_L, (left_id_L ∅ (∪)).
Qed.

Lemma elem_of_df_clean e (df : list (row A)) :
  e ∈ df_clean parse df ↔ ∃ r, r ∈ df ∧ normalize parse r = Some e.
Proof. unfold df_clean. apply list_elem_of_omap. Qed.

Lemma has_category_analyze (df : list (row A)) (c : string) :
  has_category (Some (analyze_azure_services parse df)) c ↔
  ∃ r, r ∈ df ∧ usable_row parse c r.
Proof.
  unfold usable_row.
  simpl. rewrite <- elem_of_dom, dom_analyze, elem_of_list_to_set.
  rewrite list_elem_of_fmap. split.
  - intros (e & -> & He). apply elem_of_df_clean in He as (r & Hr & Hn).
    exists r. split; [done|]. unfold normalize in Hn.
    destruct (service_category r); [done|].
    destruct (to_numeric parse (total r)); [|done].
    by simplify_eq.
  - intros (r & Hr & Hc & [x Hx]).
    exists (Entry c (key_or_na (service_sub_category r))
                    (key_or_na (service_unit r)) x).
    split; [done|]. apply elem_of_df_clean. exists r. split; [done|].
    unfold normalize. by rewrite Hc, Hx.
Qed.

(** X2: the categories of the dictionary are the category texts, as they
    stand in the cells, of the rows whose amount is a number: no trimming
    and no test for blanks is applied to them. *)
Theorem category_keys_verbatim (df : list (row A)) (c : string) :
  has_category (Some (analyze_azure_services parse df)) c ↔
  ∃ r, r ∈ df ∧ service_category r = Str c ∧
       is_Some (to_numeric parse (total r)).
Proof. apply has_category_analyze. Qed.

Lemma categories_of_Some service_data :
  categories_of (Some service_data) = dom service_data.
Proof.
  unfold categories_of, truthy. case_bool_decide as Hs; [done|].
  assert (size service_data = 0) as Hz by (destruct (size service_data); [done|by destruct Hs]).
  apply map_size_empty_iff in Hz. subst. by rewrite dom_empty_L.
Qed.

(** X3: for a frame with the four columns whose category column holds
    texts, before and after, rows added at the end of the frame remove no
    service: compared with the analysis of the longer frame, the analysis
    of the shorter one has no missing service. *)
Theorem appended_rows_remove_no_service (columns : list string)
    (df more : list (row A)) :
  missing_columns columns = [] →
  ∃ old new,
    analyze_csv parse (CsvFrame columns Texts df) = Some old ∧
    analyze_csv parse (CsvFrame columns Texts (df ++ more)) = Some new ∧
    (compare_service_data (Some old) (Some new)).1 = [].
Proof.
  intros Hcolumns. unfold analyze_csv. rewrite Hcolumns. cbn [nonempty].
  eexists _, _. split_and!; [done..|].
  unfold compare_service_data. cbn [fst].
  rewrite !categories_of_Some, !dom_analyze, df_clean_app, fmap_app.
  rewrite list_to_set_app_L.
  replace (_ ∖ _) with (∅ : gset string); [apply sorted_empty|].
  apply set_eq. intros x.
  rewrite elem_of_difference, elem_of_union, elem_of_empty. tauto.
Qed.

End Stored.
(** ** The counts of the summary *)

Section Counts.
Import Counting.
Context {A : Type} `{Arith A}.
Variable parse : string → option A.
Implicit Types service_data : gmap string (gmap string (gmap string A)).

Lemma msum_update_default_at {V : Type} (g : V → nat) (k : string)
    (f : V → V) (dflt : V) (t : nat) (d : gmap string V) :
  g (f (default dflt (d !! k))) = g (default dflt (d !! k)) + t →
  (d !! k = None → g dflt = 0) →
  msum g (update_default k f dflt d) = msum g d + t.
Proof.
  intros Hf Hdflt. unfold update_default.
  destruct (d !! k) as [x|] eqn:Hk; simpl in *.
  - rewrite <- (insert_delete_eq d k (f x)).
    rewrite msum_insert by apply lookup_delete_eq.
    rewrite <- (insert_delete_id d k x Hk) at 2.
    rewrite msum_insert by apply lookup_delete_eq.
    rewrite Hf. unfold add; simpl. lia.
  - rewrite msum_insert by done. rewrite Hf, Hdflt by done.
    unfold add; simpl. lia.
Qed.

Lemma total_subcategories_msum service_data :
  total_subcategories service_data = msum size service_data.
Proof. done. Qed.

Lemma total_unit_types_msum service_data :
  total_unit_types service_data = msum (msum size) service_data.
Proof.
  unfold total_unit_types.
  rewrite (map_fold_msum _ (msum size)); [done|].
  intros _ subs n. by rewrite (map_fold_msum _ size).
Qed.

Lemma size_add_entry service_data (e : entry A) :
  size (add_entry service_data e)
  = size service_data
    + match service_data !! e_category e with Some _ => 0 | None => 1 end.
Proof.
  unfold add_entry.
  destruct (service_data !! e_category e) eqn:Hc.
  - rewrite map_size_insert_Some by done. lia.
  - rewrite map_size_insert_None by done. lia.
Qed.

Lemma total_subcategories_add_entry service_data (e : entry A) :
  total_subcategories (add_entry service_data e)
  = total_subcategories service_data
    + match lookup2 service_data (e_category e) (e_subcategory e) with
      | Some _ => 0
      | None => 1
      end.
Proof.
  rewrite !total_subcategories_msum, add_entry_update_default.
  apply msum_update_default_at; [|done].
  unfold update_default, lookup2.
  destruct (service_data !! e_category e) as [subs|]; simpl.
  - destruct (subs !! e_subcategory e) eqn:Hs.
    + rewrite map_size_insert_Some by done. lia.
    + rewrite map_size_insert_None by done. lia.
  - rewrite map_size_insert_None by done. lia.
Qed.

Lemma total_unit_types_add_entry service_data (e : entry A) :
  total_unit_types (add_entry service_data e)
  = total_unit_types service_data
    + match lookup3 service_data (e_category e) (e_subcategory e)
              (e_unit e) with
      | Some _ => 0
      | None => 1
      end.
Proof.
  rewrite !total_unit_types_msum, add_entry_update_default.
  apply msum_update_default_at; [|intros _; exact (msum_empty _)].
  apply msum_update_default_at; [|done].
  unfold update_default, lookup3.
  destruct (service_data !! e_category e) as [subs|]; simpl.
  - destruct (subs !! e_subcategory e) as [units|]; simpl.
    + destruct (units !! e_unit e) eqn:Hu.
      * rewrite map_size_insert_Some by done. lia.
      * rewrite map_size_insert_None by done. lia.
    + rewrite map_size_insert_None by done. lia.
  - rewrite map_size_insert_None by done. lia.
Qed.

Lemma lookup2_add_entry service_data (e : entry A) (c s : string) :
  is_Some (lookup2 (add_entry service_data e) c s)
  ↔ (c, s) = pair_of e ∨ is_Some (lookup2 service_data c s).
Proof.
  unfold lookup2 at 1. rewrite lookup_add_entry. unfold pair_of, lookup2.
  case_decide as Hc.
  - subst c. destruct (decide (e_subcategory e = s)) as [<-|Hs].
    + rewrite lookup_insert_eq. split; [by left|by eexists].
    + rewrite lookup_insert_ne by done.
      destruct (service_data !! e_category e) as [subs|]; simpl.
      * split; [by right|]. intros [?|?]; [by simplify_eq|done].
      * rewrite lookup_empty. split; [by intros []|].
        intros [?|[]]; [by simplify_eq|done].
  - split; [by right|]. intros [?|?]; [by simplify_eq|done].
Qed.

Lemma lookup2_aggregate_is_Some (es : list (entry A)) (c s : string) :
  is_Some (lookup2 (aggregate_entries es) c s) ↔ (c, s) ∈ pair_of <$> es.
Proof.
  unfold aggregate_entries.
  induction es as [|e es IH] using rev_ind.
  - unfold lookup2. simpl. rewrite lookup_empty.
    split; [by intros []|]. intros Hin. by apply elem_of_nil in Hin.
  - rewrite foldl_app. cbn [foldl].
    rewrite lookup2_add_entry, IH, fmap_app, elem_of_app.
    rewrite fmap_cons, fmap_nil, list_elem_of_singleton. tauto.
Qed.

Lemma size_list_to_set_snoc `{Countable K} (l : list K) (x : K) :
  size (list_to_set (l ++ [x]) : gset K)
  = size (list_to_set l : gset K) + (if decide (x ∈ l) then 0 else 1).
Proof.
  rewrite list_to_set_snoc_L. case_decide as Hx.
  - f_equal. rewrite Nat.add_0_r. f_equal. apply set_eq. intros y.
    rewrite elem_of_union, elem_of_singleton, !elem_of_list_to_set.
    split; [intros [?| ->]; done|by left].
  - rewrite size_union, size_singleton; [done|].
    intros y Hy. rewrite elem_of_singleton. intros ->.
    by apply elem_of_list_to_set in Hy.
Qed.

Lemma option_is_Some_if {X : Type} (o : option X) (P : Prop) `{Decision P} :
  (is_Some o ↔ P) →
  match o with Some _ => 0 | None => 1 end = (if decide P then 0 else 1).
Proof.
  intros Hiff. destruct o; case_decide as HP; try done.
  - destruct HP. apply Hiff. by eexists.
  - apply Hiff in HP. by destruct HP.
Qed.

(** X4: the three counts of the summary are the numbers of distinct
    categories, of distinct pairs of category and subcategory, and of
    distinct triples of category, subcategory and unit among the rows the
    analysis keeps. *)
Theorem summary_counts_distinct (df : list (row A)) :
  let entries := df_clean parse df in
  let service_data := analyze_azure_services parse df in
  length (sorted (dom service_data))
    = size (list_to_set (e_category <$> entries) : gset string) ∧
  total_subcategories service_data
    = size (list_to_set (pair_of <$> entries) : gset (string * string)) ∧
  total_unit_types service_data
    = size (list_to_set (triple <$> entries)
              : gset (string * string * string)).
Proof.
  simpl. split_and!.
  - rewrite sorted_Permutation. fold (size (dom (analyze_azure_services parse df))).
    by rewrite (dom_analyze parse).
  - unfold analyze_azure_services.
    induction (df_clean parse df) as [|e es IH] using rev_ind; [done|].
    unfold aggregate_entries in *. rewrite foldl_app. cbn [foldl].
    rewrite total_subcategories_add_entry, IH, fmap_app.
    rewrite fmap_cons, fmap_nil, size_list_to_set_snoc. f_equal.
    apply option_is_Some_if, lookup2_aggregate_is_Some.
  - unfold analyze_azure_services.
    induction (df_clean parse df) as [|e es IH] using rev_ind; [done|].
    unfold aggregate_entries in *. rewrite foldl_app. cbn [foldl].
    rewrite total_unit_types_add_entry, IH, fmap_app.
    rewrite fmap_cons, fmap_nil, size_list_to_set_snoc. f_equal.
    apply option_is_Some_if, lookup3_aggregate_is_Some.
Qed.

End Counts.
(** ** The side-by-side display *)

Section DisplayLoop.
Context {A : Type} `{Arith A}.
Implicit Types old new : gmap string (gmap string (gmap string A)).
Implicit Types old_data new_data : option (gmap string (gmap string (gmap string A))).

Lemma totals_of_Some old :
  totals_of (Some old) = calculate_category_totals old.
Proof.
  unfold totals_of, truthy. case_bool_decide as Hs; [done|].
  assert (size old = 0) as Hz
    by (destruct (size old); [done|by destruct Hs]).
  apply map_size_empty_iff in Hz. subst.
  unfold calculate_category_totals. by rewrite fmap_empty.
Qed.

Lemma for_each_Ok {X Y : Type} (body : X → result Y) (f : X → Y)
    (l : list X) :
  (∀ x, body x = Ok (f x)) → for_each body l = Ok (f <$> l).
Proof.
  intros Hbody. induction l as [|x l IH]; [done|].
  cbn [for_each]. rewrite Hbody, IH. done.
Qed.

Lemma left_content_dict old (category : string) :
  left_content (Some old) (calculate_category_totals old) category
  = Ok (left_column old category).
Proof.
  unfold left_content, left_column, py_in, py_item. simpl.
  case_bool_decide as Hin.
  - apply elem_of_dom in Hin as [subs ->]. done.
  - apply not_elem_of_dom in Hin. by rewrite Hin.
Qed.

Lemma right_content_dict old new (category : string) :
  right_content (Some old) (Some new) (calculate_category_totals new)
                category
  = Ok (right_column old new category).
Proof.
  unfold right_content, right_column, py_in, py_item. simpl.
  case_bool_decide as Hin.
  - apply elem_of_dom in Hin as [subs ->]. simpl.
    case_bool_decide as Hold; simpl.
    + apply elem_of_dom in Hold as [? ->]. done.
    + apply not_elem_of_dom in Hold. by rewrite Hold.
  - apply not_elem_of_dom in Hin. by rewrite Hin.
Qed.

(** The display of two dictionaries: one block for each category of
    either, in ascending order. *)
Lemma display_dicts old new :
  display_dual_service_comparison (Some old) (Some new)
  = Ok (concat ((λ category,
                   side_by_side (left_column old category)
                                (right_column old new category))
                <$> sorted (dom old ∪ dom new))).
Proof.
  unfold display_dual_service_comparison.
  rewrite !categories_of_Some, !totals_of_Some.
  erewrite for_each_Ok; [done|]. intros category. simpl.
  by rewrite left_content_dict, right_content_dict.
Qed.

Lemma no_category_dom new :
  ¬ (∃ c, has_category (Some new) c) → dom new = ∅.
Proof.
  intros Hno. apply set_eq. intros c. rewrite elem_of_empty, elem_of_dom.
  split; [|done]. intros Hc. apply Hno. by exists c.
Qed.

(** X5: the category loop of the side-by-side display raises [TypeError]
    exactly when one of its arguments is [None] and the other has a
    category; for every other pair of arguments, two dictionaries among
    them, it runs to its end. *)
Theorem display_raises_iff_one_sided old_data new_data :
  (one_sided old_data new_data →
   display_dual_service_comparison old_data new_data = Raise TypeError) ∧
  (¬ one_sided old_data new_data →
   ∃ blocks, display_dual_service_comparison old_data new_data = Ok blocks).
Proof.
  unfold one_sided. split.
  - intros [[-> [c Hc]]|[-> [c Hc]]].
    + destruct new_data as [new|]; [|done]. by eapply display_None_old.
    + destruct old_data as [old|]; [|done]. by eapply display_None_new.
  - intros Hno. destruct old_data as [old|], new_data as [new|].
    + rewrite display_dicts. by eexists.
    + assert (dom old = ∅) as Hdom.
      { apply no_category_dom. intros Hc. apply Hno. by right. }
      unfold display_dual_service_comparison.
      rewrite categories_of_Some, Hdom. simpl.
      rewrite (left_id_L ∅ (∪)), sorted_empty. by eexists.
    + assert (dom new = ∅) as Hdom.
      { apply no_category_dom. intros Hc. apply Hno. by left. }
      unfold display_dual_service_comparison.
      rewrite categories_of_Some, Hdom. simpl.
      rewrite (left_id_L ∅ (∪)), sorted_empty. by eexists.
    + unfold display_dual_service_comparison. simpl.
      rewrite (left_id_L ∅ (∪)), sorted_empty. by eexists.
Qed.

Lemma elem_of_concat {X : Type} (x : X) (ls : list (list X)) :
  x ∈ concat ls ↔ ∃ l, l ∈ ls ∧ x ∈ l.
Proof.
  induction ls as [|l ls IH]; simpl.
  - split; [intros Hx; by apply elem_of_nil in Hx|].
    intros (l & Hl & _). by apply elem_of_nil in Hl.
  - rewrite elem_of_app, IH. split.
    + intros [Hx|(l' & Hl' & Hx)].
      * exists l. split; [apply elem_of_cons; by left|done].
      * exists l'. split; [apply elem_of_cons; by right|done].
    + intros (l' & Hl' & Hx). apply elem_of_cons in Hl' as [->|Hl'].
      * by left.
      * right. by exists l'.
Qed.

Lemma side_by_side_fst (left right : list (line A)) :
  (side_by_side left right).*1
  = left ++ replicate (length left `max` length right - length left) LEmpty
    ++ [LRule].
Proof.
  unfold side_by_side. rewrite fmap_app, fst_zip; [by rewrite <- (assoc_L (++))|].
  rewrite !length_app, !length_replicate. lia.
Qed.

Lemma side_by_side_snd (left right : list (line A)) :
  (side_by_side left right).*2
  = right ++ replicate (length left `max` length right - length right) LEmpty
    ++ [LRule].
Proof.
  unfold side_by_side. rewrite fmap_app, snd_zip; [by rewrite <- (assoc_L (++))|].
  rewrite !length_app, !length_replicate. lia.
Qed.

(** The lines of a column by their kind. *)
Lemma elem_of_column (x heading : line A)
    (subcategories : gmap string (gmap string A)) (total : A) :
  x ∈ column heading subcategories total →
  x = heading ∨ (∃ s, x = LSubcategory s) ∨ (∃ u a, x = LUnit u a)
  ∨ x = LTotal total.
Proof.
  unfold column. rewrite elem_of_cons, elem_of_app, list_elem_of_bind.
  intros [->|[(s & Hx & _)|Hx]].
  - by left.
  - apply elem_of_cons in Hx as [->|Hx]; [right; left; by eexists|].
    apply list_elem_of_fmap in Hx as (u & -> & _).
    right; right; left. by eexists _, _.
  - apply list_elem_of_singleton in Hx as ->. by right; right; right.
Qed.

Lemma elem_of_padded (x : line A) (l : list (line A)) (n : nat) :
  x ≠ LEmpty → x ≠ LRule →
  x ∈ l ++ replicate n LEmpty ++ [LRule] ↔ x ∈ l.
Proof.
  intros He Hr. rewrite !elem_of_app, elem_of_replicate,
    list_elem_of_singleton. split; [|by left].
  intros [?|[[? _]|?]]; done.
Qed.

Lemma missing_right_column old new (c category : string) :
  LMissing c ∈ right_column old new category
  ↔ c = category ∧ new !! category = None.
Proof.
  unfold right_column. destruct (new !! category) as [subs|].
  - split; [|by intros [_ ?]]. intros Hx.
    apply elem_of_column in Hx as [Hx|[[? ?]|[(? & ? & ?)|?]]]; try done.
    by destruct (old !! category).
  - rewrite list_elem_of_singleton. split; [by intros [= ->]|by intros [-> _]].
Qed.

Lemma new_right_column old new (c category : string) :
  LCategoryNew c ∈ right_column old new category
  ↔ c = category ∧ is_Some (new !! category) ∧ old !! category = None.
Proof.
  unfold right_column. destruct (new !! category) as [subs|].
  - split.
    + intros Hx.
      apply elem_of_column in Hx as [Hx|[[? ?]|[(? & ? & ?)|?]]]; try done.
      destruct (old !! category); [done|]. by simplify_eq.
    + intros (-> & _ & ->). unfold column. apply elem_of_cons. by left.
  - rewrite list_elem_of_singleton. split; [done|]. by intros (_ & [] & _).
Qed.

Lemma missing_left_column old (c category : string) :
  LMissing c ∈ left_column old category
  ↔ c = category ∧ old !! category = None.
Proof.
  unfold left_column. destruct (old !! category) as [subs|].
  - split; [|by intros [_ ?]]. intros Hx.
    apply elem_of_column in Hx as [Hx|[[? ?]|[(? & ? & ?)|?]]]; done.
  - rewrite list_elem_of_singleton. split; [by intros [= ->]|by intros [-> _]].
Qed.

Lemma elem_of_blocks (x : line A) (cs : list string)
    (L R : string → list (line A)) :
  x ≠ LEmpty → x ≠ LRule →
  let blocks := concat ((λ c, side_by_side (L c) (R c)) <$> cs) in
  (x ∈ blocks.*1 ↔ ∃ c, c ∈ cs ∧ x ∈ L c) ∧
  (x ∈ blocks.*2 ↔ ∃ c, c ∈ cs ∧ x ∈ R c).
Proof.
  intros He Hr. simpl. induction cs as [|c cs [IH1 IH2]].
  - simpl. split; (split; [intros Hx; by apply elem_of_nil in Hx|]);
      intros (c & Hc & _); by apply elem_of_nil in Hc.
  - rewrite fmap_cons. cbn [concat]. rewrite !fmap_app, !elem_of_app.
    rewrite IH1, IH2, side_by_side_fst, side_by_side_snd.
    rewrite !elem_of_padded by done.
    split; (split; [intros [Hx|(c' & Hc' & Hx)]|]).
    + exists c. split; [apply elem_of_cons; by left|done].
    + exists c'. split; [apply elem_of_cons; by right|done].
    + intros (c' & Hc' & Hx). apply elem_of_cons in Hc' as [->|Hc'].
      * by left.
      * right. by exists c'.
    + exists c. split; [apply elem_of_cons; by left|done].
    + exists c'. split; [apply elem_of_cons; by right|done].
    + intros (c' & Hc' & Hx). apply elem_of_cons in Hc' as [->|Hc'].
      * by left.
      * right. by exists c'.
Qed.

(** X6: in the display of two dictionaries, the marks agree with the
    category diff: a category is shown as missing in the right column
    exactly when it is a missing service, it is marked new exactly when it
    is an added service, and it is shown as missing in the left column
    exactly when it is an added service. *)
Theorem display_marks_agree_with_diff old new :
  ∃ blocks,
    display_dual_service_comparison (Some old) (Some new) = Ok blocks ∧
    ∀ c,
      (LMissing c ∈ blocks.*2
       ↔ c ∈ (compare_service_data (Some old) (Some new)).1) ∧
      (LCategoryNew c ∈ blocks.*2
       ↔ c ∈ (compare_service_data (Some old) (Some new)).2) ∧
      (LMissing c ∈ blocks.*1
       ↔ c ∈ (compare_service_data (Some old) (Some new)).2).
Proof.
  eexists. split; [apply display_dicts|]. intros c.
  unfold compare_service_data. cbn [fst snd].
  rewrite !categories_of_Some, !elem_of_sorted, !elem_of_difference.
  rewrite !elem_of_dom.
  pose proof (elem_of_blocks (LMissing c) (sorted (dom old ∪ dom new))
                (left_column old) (right_column old new)) as [HL HR];
    [done..|].
  pose proof (elem_of_blocks (LCategoryNew c) (sorted (dom old ∪ dom new))
                (left_column old) (right_column old new)) as [_ HN];
    [done..|].
  simpl in HL, HR, HN. rewrite HL, HR, HN. clear HL HR HN.
  assert (∀ c', c' ∈ sorted (dom old ∪ dom new)
                ↔ is_Some (old !! c') ∨ is_Some (new !! c')) as Hcs.
  { intros c'. by rewrite elem_of_sorted, elem_of_union, !elem_of_dom. }
  split_and!.
  - split.
    + intros (c' & Hc' & Hx). apply missing_right_column in Hx as [-> Hn].
      apply Hcs in Hc' as [Ho|Hnew]; [|by rewrite Hn in Hnew; destruct Hnew].
      split; [done|]. rewrite Hn. by intros [].
    + intros [Ho Hn]. exists c. split; [apply Hcs; by left|].
      apply missing_right_column. split; [done|].
      by destruct (new !! c); [destruct Hn; eexists|].
  - split.
    + intros (c' & Hc' & Hx).
      apply new_right_column in Hx as (-> & Hn & Ho).
      split; [done|]. rewrite Ho. by intros [].
    + intros [Hn Ho]. exists c. split; [apply Hcs; by right|].
      apply new_right_column. split_and!; [done..|].
      by destruct (old !! c); [destruct Ho; eexists|].
  - split.
    + intros (c' & Hc' & Hx). apply missing_left_column in Hx as [-> Ho].
      apply Hcs in Hc' as [Hold|Hn]; [by rewrite Ho in Hold; destruct Hold|].
      split; [done|]. rewrite Ho. by intros [].
    + intros [Hn Ho]. exists c. split; [apply Hcs; by right|].
      apply missing_left_column. split; [done|].
      by destruct (old !! c); [destruct Ho; eexists|].
Qed.

End DisplayLoop.
(** ** The single-file report *)

Section SingleReport.
Context {A : Type} `{Arith A}.
Variable ltb : A → A → bool.
Variable parse : string → option A.
Implicit Types service_data : gmap string (gmap string (gmap string A)).

Lemma truthy_Some service_data :
  truthy (Some service_data) = true ↔ service_data ≠ ∅.
Proof.
  unfold truthy. rewrite bool_decide_eq_true.
  split; intros Hs Heq; apply Hs.
  - subst. apply map_size_empty.
  - by apply map_size_empty_iff.
Qed.

Lemma aggregate_entries_empty_iff (es : list (entry A)) :
  aggregate_entries es = ∅ ↔ es = [].
Proof.
  split; [|by intros ->]. destruct es as [|e es]; [done|]. intros Hempty.
  assert (e_category e ∈ dom (aggregate_entries (e :: es))) as Hin.
  { unfold aggregate_entries. rewrite dom_foldl_add_entry, dom_empty_L.
    rewrite (left_id_L ∅ (∪)), elem_of_list_to_set, fmap_cons.
    apply elem_of_cons. by left. }
  rewrite Hempty, dom_empty_L in Hin. by apply elem_of_empty in Hin.
Qed.

Lemma truthy_analyze (df : list (row A)) :
  truthy (Some (analyze_azure_services parse df))
  = nonempty (df_clean parse df).
Proof.
  destruct (df_clean parse df) as [|e es] eqn:Hes; simpl.
  - unfold analyze_azure_services. by rewrite Hes.
  - apply truthy_Some. unfold analyze_azure_services.
    rewrite aggregate_entries_empty_iff. by rewrite Hes.
Qed.

Lemma truthy_analyze_csv (file : csv A) :
  truthy (analyze_csv parse file) = true ↔ usable parse file.
Proof.
  unfold analyze_csv, usable.
  destruct file as [| |columns categories df]; [done..|].
  destruct (missing_columns columns) eqn:Hm; cbn [nonempty].
  - rewrite truthy_analyze. destruct (df_clean parse df); simpl.
    + split; [done|]. by intros [_ ?].
    + done.
  - split; [done|]. by intros [? _].
Qed.

Lemma elem_of_subcategory_lines (x : report_line A) (subcategory : string)
    (units : gmap string A) :
  x ∈ subcategory_lines subcategory units ↔
  x = RSubcategory subcategory
  ∨ (∃ u a, units !! u = Some a ∧ x = RUnit u a)
  ∨ x = RSubcategoryTotal (subcategory_total units).
Proof.
  unfold subcategory_lines, unit_lines.
  rewrite elem_of_cons, elem_of_app, list_elem_of_fmap,
    list_elem_of_singleton.
  split; (intros [?|[Hx|?]]; [by left| |by right; right]); right; left.
  - destruct Hx as (u & -> & Hu).
    apply elem_of_sorted, elem_of_dom in Hu as [a Ha].
    exists u, a. by rewrite Ha.
  - destruct Hx as (u & a & Ha & ->). exists u. rewrite Ha. split; [done|].
    apply elem_of_sorted, elem_of_dom. by eexists.
Qed.

Lemma elem_of_category_lines (x : report_line A) (category : string)
    (subcategories : gmap string (gmap string A)) :
  x ∈ category_lines category subcategories ↔
  x = RCategory category
  ∨ (∃ s units, subcategories !! s = Some units ∧
                x ∈ subcategory_lines s units)
  ∨ x = RCategoryTotal (display_category_total subcategories).
Proof.
  unfold category_lines.
  rewrite elem_of_cons, elem_of_app, list_elem_of_bind,
    list_elem_of_singleton.
  split; (intros [?|[Hx|?]]; [by left| |by right; right]); right; left.
  - destruct Hx as (s & Hx & Hs).
    apply elem_of_sorted, elem_of_dom in Hs as [units Hunits].
    exists s, units. by rewrite Hunits in Hx.
  - destruct Hx as (s & units & Hs & Hx). exists s. rewrite Hs.
    split; [done|]. apply elem_of_sorted, elem_of_dom. by eexists.
Qed.

Lemma elem_of_top_lines (x : report_line A) (items : list (string * A)) :
  x ∈ top_lines ltb items → ∃ i c t, x = RTop i c t.
Proof.
  unfold top_lines. intros Hx.
  apply elem_of_lookup_imap_1 in Hx as (i & item & -> & _).
  by eexists _, _, _.
Qed.

Lemma elem_of_display service_data (x : report_line A) :
  truthy (Some service_data) = true →
  x ∈ display_service_analysis ltb (Some service_data) ↔
  (∃ c subcategories, service_data !! c = Some subcategories ∧
                      x ∈ category_lines c subcategories)
  ∨ x = RCategories (length (sorted (dom service_data)))
  ∨ x = RSubcategories (total_subcategories service_data)
  ∨ x = RUnitTypes (total_unit_types service_data)
  ∨ x = RGrandTotal (sum_list (display_category_totals service_data).*2)
  ∨ x ∈ top_lines ltb (display_category_totals service_data).
Proof.
  intros Htruthy. unfold display_service_analysis. rewrite Htruthy.
  change (default ∅ (Some service_data)) with service_data. cbv zeta.
  rewrite elem_of_app, list_elem_of_bind, elem_of_app, !elem_of_cons,
    elem_of_nil.
  split.
  - intros [(c & Hx & Hc)|[Hx|Hx]].
    + apply elem_of_sorted, elem_of_dom in Hc as [subs Hsubs].
      rewrite Hsubs in Hx. left. by exists c, subs.
    + right. tauto.
    + by do 5 right.
  - intros [(c & subs & Hsubs & Hx)|Hx].
    + left. exists c. rewrite Hsubs. split; [done|].
      apply elem_of_sorted, elem_of_dom. by eexists.
    + right. tauto.
Qed.

(** X7: the single-file display prints a unit line with an amount exactly
    when the dictionary stores that amount under that unit for some
    category and subcategory. *)
Theorem display_shows_stored_totals service_data (u : string) (a : A) :
  RUnit u a ∈ display_service_analysis ltb (Some service_data)
  ↔ ∃ c s, lookup3 service_data c s u = Some a.
Proof.
  destruct (truthy (Some service_data)) eqn:Htruthy.
  - rewrite elem_of_display by done. split.
    + intros [(c & subs & Hsubs & Hx)|[?|[?|[?|[?|Hx]]]]]; try done.
      * apply elem_of_category_lines in Hx
          as [?|[(s & units & Hs & Hx)|?]]; [done| |done].
        apply elem_of_subcategory_lines in Hx
          as [?|[(u' & a' & Hu & Hx)|?]]; [done| |done].
        simplify_eq. exists c, s. unfold lookup3. by rewrite Hsubs, Hs.
      * apply elem_of_top_lines in Hx as (? & ? & ? & ?). done.
    + intros (c & s & Hl). left. unfold lookup3 in Hl.
      destruct (service_data !! c) as [subs|] eqn:Hsubs; [|done].
      destruct (subs !! s) as [units|] eqn:Hs; [|done].
      exists c, subs. split; [done|].
      apply elem_of_category_lines. right; left.
      exists s, units. split; [done|].
      apply elem_of_subcategory_lines. right; left. by exists u, a.
  - unfold display_service_analysis. rewrite Htruthy.
    rewrite list_elem_of_singleton. split; [done|].
    intros (c & s & Hl).
    assert (service_data = ∅) as ->.
    { destruct (decide (service_data = ∅)) as [|Hne]; [done|].
      apply truthy_Some in Hne. congruence. }
    done.
Qed.

Lemma no_data_not_displayed (data : option (gmap string (gmap string (gmap string A)))) :
  truthy data = true → RNoData ∉ display_service_analysis ltb data.
Proof.
  intros Htruthy. destruct data as [service_data|]; [|done].
  rewrite elem_of_display by done.
  intros [(c & subs & Hsubs & Hx)|[?|[?|[?|[?|Hx]]]]]; try done.
  - apply elem_of_category_lines in Hx
      as [?|[(s & units & Hs & Hx)|?]]; [done| |done].
    apply elem_of_subcategory_lines in Hx
      as [?|[(u' & a' & Hu & ?)|?]]; done.
  - apply elem_of_top_lines in Hx as (? & ? & ? & ?). done.
Qed.

(** ** The entry point *)

Variable path_exists : string → bool.
Variable read_csv : string → csv A.
Variable basename : string → string.

Lemma analyze_and_display_cases (csv_file_path : string) (failed : message) :
  (usable parse (read_csv csv_file_path) →
   ∃ lines,
     analyze_and_display ltb parse read_csv csv_file_path failed
     = [Analysis lines; Print MAnalysisComplete] ∧ RNoData ∉ lines) ∧
  (¬ usable parse (read_csv csv_file_path) →
   analyze_and_display ltb parse read_csv csv_file_path failed
   = [Print failed]).
Proof.
  unfold analyze_and_display. split; intros Hu.
  - pose proof Hu as Ht. apply truthy_analyze_csv in Ht. rewrite Ht.
    eexists. split; [done|]. by apply no_data_not_displayed.
  - destruct (truthy _) eqn:Ht; [|done].
    by apply truthy_analyze_csv in Ht.
Qed.

Lemma mixed_keys_texts (old_file new_file : csv A) :
  text_categories old_file → text_categories new_file →
  mixed_keys parse old_file new_file = false.
Proof.
  unfold mixed_keys, text_categories.
  destruct old_file as [| |c1 k1 d1], new_file as [| |c2 k2 d2];
    intros Hold Hnew; simpl; rewrite ?andb_false_r; try done.
  subst. rewrite bool_decide_eq_true_2 by done. simpl.
  by rewrite andb_false_r.
Qed.

(** X8: when the category columns of the files hold texts, [main] does not
    end with an exception of the side-by-side display, whatever its
    arguments: it calls the display only with two dictionaries, whose keys
    can be sorted together and for which the category loop runs to its
    end. *)
Theorem main_never_raises_on_text_categories (program : string)
    (args : list string) :
  (∀ path, text_categories (read_csv path)) →
  ∃ out, main ltb parse path_exists read_csv basename program args = Ok out.
Proof.
  intros Htexts. unfold main.
  destruct args as [|a [|b [|c l]]]; try (destruct (path_exists _); by eexists).
  destruct (path_exists a); [|by eexists].
  destruct (path_exists b); [|by eexists]. simpl.
  rewrite mixed_keys_texts by done.
  destruct (analyze_csv parse (read_csv a)) as [old|]; [|by eexists].
  destruct (analyze_csv parse (read_csv b)) as [new|]; [|by eexists].
  simpl. rewrite display_dicts. by eexists.
Qed.

(** X9: in single file mode on a path that exists, [main] prints the
    analysis when the file has the four columns and a row with a category
    and a numeric amount, and the report never holds the line "No data to
    display."; for every other file, a well-formed one without such a row
    included, it prints the failure message. *)
Theorem main_single_mode (program csv_file_path : string) :
  path_exists csv_file_path = true →
  (usable parse (read_csv csv_file_path) →
   ∃ lines,
     main ltb parse path_exists read_csv basename program [csv_file_path]
     = Ok [Print MSingleMode; Analysis lines; Print MAnalysisComplete] ∧
     RNoData ∉ lines) ∧
  (¬ usable parse (read_csv csv_file_path) →
   main ltb parse path_exists read_csv basename program [csv_file_path]
   = Ok [Print MSingleMode; Print MAnalysisFailed]).
Proof.
  intros Hexists. unfold main. rewrite Hexists. simpl.
  destruct (analyze_and_display_cases csv_file_path MAnalysisFailed)
    as [Hyes Hno].
  split; intros Hu.
  - destruct (Hyes Hu) as (lines & -> & Hlines). by exists lines.
  - by rewrite (Hno Hu).
Qed.

End SingleReport.
(** ** The service changes and the counts of a comparison *)

Section Changes.
Context {A : Type} `{Arith A}.
Variable fmt2 : A → string.
Variable markup_ok : string → bool.
Implicit Types old_data new_data data : option (gmap string (gmap string (gmap string A))).

Lemma nonempty_sorted (s : gset string) : nonempty (sorted s) = false ↔ s = ∅.
Proof.
  split.
  - intros Hs. apply set_eq. intros x. rewrite <- elem_of_sorted.
    destruct (sorted s); [|done]. by rewrite elem_of_nil, elem_of_empty.
  - intros ->. by rewrite sorted_empty.
Qed.

Lemma differences_empty (X Y : gset string) :
  X ∖ Y = ∅ ∧ Y ∖ X = ∅ ↔ X = Y.
Proof.
  split.
  - intros [HXY HYX]. apply set_eq. intros x.
    assert (x ∉ X ∖ Y) as H1 by (rewrite HXY; apply not_elem_of_empty).
    assert (x ∉ Y ∖ X) as H2 by (rewrite HYX; apply not_elem_of_empty).
    rewrite elem_of_difference in H1, H2.
    destruct (decide (x ∈ X)), (decide (x ∈ Y)); tauto.
  - intros ->. split; apply set_eq; intros x;
      rewrite elem_of_difference, elem_of_empty; tauto.
Qed.

Lemma no_changes_lines (old_data new_data : option (gmap string (gmap string (gmap string A)))) :
  let missing_services := (compare_service_data old_data new_data).1 in
  let added_services := (compare_service_data old_data new_data).2 in
  ((if nonempty missing_services || nonempty added_services
    then CHeading
         :: (if nonempty missing_services
             then CMissing (length missing_services)
                  :: (CService <$> missing_services)
             else [])
         ++ (if nonempty added_services
             then CAdded (length added_services)
                  :: (CService <$> added_services)
             else [])
    else [CNoChanges]) = [CNoChanges]
   ↔ categories_of old_data = categories_of new_data) ∧
  (display_service_changes old_data new_data = [CNoMissing; CNoAdded]
   ↔ categories_of old_data = categories_of new_data).
Proof.
  unfold display_service_changes, compare_service_data. cbn [fst snd].
  rewrite <- differences_empty, <- !nonempty_sorted.
  destruct (nonempty (sorted (categories_of old_data ∖ _))),
    (nonempty (sorted (categories_of new_data ∖ _))); simpl;
    split; split; (done || by intros [? ?]).
Qed.

(** X10: for two dictionaries and names that [Paragraph] takes, the story
    of the comparison report is built and the display reaches its section
    on service changes; the report says "No service changes detected", and
    the display prints both "No services missing" and "No new services
    added", exactly when the two dictionaries have the same categories. *)
Theorem no_service_changes_iff_same_categories
    (old new : gmap string (gmap string (gmap string A)))
    (old_file_name new_file_name : string) :
  markup_ok old_file_name = true → markup_ok new_file_name = true →
  names_accepted markup_ok old → names_accepted markup_ok new →
  ∃ changes sections blocks lines,
    generate_comparison_pdf fmt2 markup_ok (Some old) (Some new)
                            old_file_name new_file_name
    = Ok (changes, sections) ∧
    display_comparison_and_changes (Some old) (Some new)
    = Ok (blocks, lines) ∧
    (changes = [CNoChanges] ↔ dom old = dom new) ∧
    (lines = [CNoMissing; CNoAdded] ↔ dom old = dom new).
Proof.
  intros Hofn Hnfn Hold Hnew.
  pose proof (no_changes_lines (Some old) (Some new)) as Hlines.
  cbv zeta in Hlines. rewrite !categories_of_Some in Hlines.
  destruct Hlines as [Hstory Hdisplay].
  eexists _, _, _, _. split_and!; [| |exact Hstory|exact Hdisplay].
  - unfold generate_comparison_pdf.
    rewrite !(paragraph_Ok markup_ok) by done. simpl.
    rewrite story_service_changes_accepted
      by by apply names_accepted_categories.
    simpl. rewrite (detailed_comparison_accepted fmt2 markup_ok) by done.
    reflexivity.
  - unfold display_comparison_and_changes. rewrite display_dicts.
    reflexivity.
Qed.

Lemma categories_count_size data :
  categories_count data = size (categories_of data).
Proof.
  unfold categories_count, categories_of.
  destruct data as [d|]; simpl; [|done].
  case_bool_decide; [by rewrite size_dom|done].
Qed.

Lemma length_sorted (s : gset string) : length (sorted s) = size s.
Proof. by rewrite sorted_Permutation. Qed.

(** X11: the counts of a comparison balance: the categories of the old
    file plus the added services are as many as the categories of the new
    file plus the missing services. *)
Theorem categories_counts_balance old_data new_data :
  categories_count old_data
    + length (compare_service_data old_data new_data).2
  = categories_count new_data
    + length (compare_service_data old_data new_data).1.
Proof.
  unfold compare_service_data. cbn [fst snd].
  rewrite !categories_count_size, !length_sorted.
  rewrite <- !size_union_alt. f_equal. apply (comm_L (∪)).
Qed.

End Changes.

(** ** A file compared with itself *)

Section SelfComparison.
Variable fmt2 : float → string.
Variable markup_ok : string → bool.
Implicit Types d : gmap string (gmap string (gmap string float)).

Lemma sub_diag (x : float) : finite x = true → sub x x = zero.
Proof.
  destruct x as [s| | |s m e]; try done; simpl.
  - by destruct s.
  - intros _. by rewrite Z.sub_diag.
Qed.

Lemma unit_changes_diag (units : gmap string float) (r : unit_change float) :
  map_Forall (λ _ x, finite x = true) units →
  r ∈ unit_changes units units →
  ∃ x, units !! uc_unit r = Some x ∧
       r = UnitChange (uc_unit r) x x zero.
Proof.
  intros Hfin Hr. unfold unit_changes in Hr.
  apply list_elem_of_fmap in Hr as (u & -> & Hu).
  apply elem_of_sorted in Hu. rewrite (idemp_L (∪)) in Hu.
  apply elem_of_dom in Hu as [x Hx]. exists x. simpl. rewrite Hx. simpl.
  split; [done|]. f_equal. apply sub_diag. by eapply Hfin.
Qed.

(** X12: when the amounts of a dictionary are finite and [Paragraph]
    takes the names of the files and of its categories and subcategories,
    the comparison report of the dictionary with itself is built, and every
    row below a header of its detailed comparison shows the stored amount
    twice and the change zero, without a plus sign. *)
Theorem self_comparison_no_change d (old_file_name new_file_name : string) :
  (∀ c s u x, lookup3 d c s u = Some x → finite x = true) →
  markup_ok old_file_name = true → markup_ok new_file_name = true →
  names_accepted markup_ok d →
  ∃ changes sections,
    generate_comparison_pdf fmt2 markup_ok (Some d) (Some d)
                            old_file_name new_file_name
    = Ok (changes, sections) ∧
    ∀ c tables s table row,
      (c, tables) ∈ sections → (s, table) ∈ tables → row ∈ table →
      row = ["Unit"; "Old Amount"; "New Amount"; "Change"] ∨
      ∃ u x, lookup3 d c s u = Some x ∧
             row = [u; fmt2 x; fmt2 x; fmt2 zero].
Proof.
  intros Hfin Hofn Hnfn Hnames. unfold generate_comparison_pdf.
  rewrite !(paragraph_Ok markup_ok) by done. simpl.
  rewrite story_service_changes_accepted
    by by apply names_accepted_categories.
  simpl. rewrite (detailed_comparison_accepted fmt2 markup_ok) by done.
  simpl. eexists _, _. split; [done|].
  intros c tables s table row Hc Hs Hrow.
  apply list_elem_of_fmap in Hc as (c' & Hc & _).
  cbv beta zeta in Hc. simplify_eq.
  apply list_elem_of_fmap in Hs as (s' & Hs & _).
  cbv beta zeta in Hs. simplify_eq.
  unfold table_data in Hrow. apply elem_of_cons in Hrow as [->|Hrow];
    [by left|right].
  apply list_elem_of_fmap in Hrow as (r & -> & Hr).
  apply unit_changes_diag in Hr as (x & Hx & ->).
  - rewrite <- lookup3_get_or_empty in Hx.
    exists (uc_unit r), x. split; [done|]. done.
  - intros u x Hx. rewrite <- lookup3_get_or_empty in Hx. by eapply Hfin.
Qed.

End SelfComparison.
(** ** The analysis of the window *)

Section Window.
Context {A : Type} `{Arith A}.
Variable parse : string → option A.

Lemma window_error_iff_no_data (csv_file_path : string) (file : csv A) :
  AzureAnalyzerGUI.truthy_str
    (AzureAnalyzerGUI.analyze_azure_services parse csv_file_path file).2
  = negb (is_not_None (AzureAnalyzerGUI.analyze_azure_services parse csv_file_path file).1).
Proof.
  unfold AzureAnalyzerGUI.analyze_azure_services.
  destruct file as [| |columns categories df]; [done..|].
  by destruct (nonempty (missing_columns columns)).
Qed.

(** X13: the analysis of the window returns the dictionary the analysis of
    the command line returns, and with it an error message that is not
    empty exactly when the dictionary is [None]. *)
Theorem window_analysis_agrees (csv_file_path : string) (file : csv A) :
  let result := AzureAnalyzerGUI.analyze_azure_services parse csv_file_path file in
  result.1 = analyze_csv parse file ∧
  (result.1 = None ↔ AzureAnalyzerGUI.truthy_str result.2 = true) ∧
  (is_Some result.1 ↔ result.2 = None).
Proof.
  unfold AzureAnalyzerGUI.analyze_azure_services, analyze_csv.
  destruct file as [| |columns categories df]; simpl.
  - split_and!; [done|done|]. split; [by intros []|done].
  - split_and!; [done|done|]. split; [by intros []|done].
  - destruct (nonempty (missing_columns columns)); simpl.
    + split_and!; [done|done|]. split; [by intros []|done].
    + split_and!; [done|done|]. split; [done|by eexists].
Qed.

(** X14: when a comparison in the window fails because the analysis of a
    file gave [None], the text shown starts with "Analysis errors:" and
    names an error: the general text of the last [if] is never shown. *)
Theorem window_comparison_errors_are_named (old_path new_path : string)
    (old_file new_file : csv A) :
  let old := AzureAnalyzerGUI.analyze_azure_services parse old_path old_file in
  let new := AzureAnalyzerGUI.analyze_azure_services parse new_path new_file in
  is_not_None old.1 && is_not_None new.1 = false →
  ∃ rest,
    rest ≠ "" ∧
    AzureAnalyzerGUI.comparison_error_text old.2 new.2
    = "Analysis errors:" +:+ AzureAnalyzerGUI.newline +:+ rest.
Proof.
  cbv zeta. intros Hnone. unfold AzureAnalyzerGUI.comparison_error_text.
  rewrite !window_error_iff_no_data.
  destruct (is_not_None (AzureAnalyzerGUI.analyze_azure_services parse old_path old_file).1),
    (is_not_None (AzureAnalyzerGUI.analyze_azure_services parse new_path new_file).1);
    [done|..]; simpl; (eexists; split; [|done]; done).
Qed.

End Window.
(** ** The ranking of the categories *)

Section Ranking.
Context {A : Type}.
Variable ltb : A → A → bool.
Variable sortable : A → Prop.
Hypothesis ltb_asym : ∀ x y,
  sortable x → sortable y → ltb x y = true → ltb y x = false.
Hypothesis ltb_negtrans : ∀ x y z,
  sortable x → sortable y → sortable z →
  ltb x y = false → ltb y z = false → ltb x z = false.
Implicit Types items l : list (string * A).

Lemma insert_by_total_Permutation (x : string * A) l :
  insert_by_total ltb x l ≡ₚ x :: l.
Proof.
  induction l as [|y l IH]; simpl; [done|].
  destruct (ltb x.2 y.2); [|done].
  rewrite IH. apply Permutation_swap.
Qed.

Lemma sorted_by_total_Permutation items :
  sorted_by_total ltb items ≡ₚ items.
Proof.
  induction items as [|x items IH]; simpl; [done|].
  by rewrite insert_by_total_Permutation, IH.
Qed.

Lemma insert_by_total_ranked (x : string * A) l :
  sortable x.2 → Forall (λ y, sortable y.2) l →
  Forall (λ y, str_lt x.1 y.1) l →
  StronglySorted (ranked ltb) l →
  StronglySorted (ranked ltb) (insert_by_total ltb x l).
Proof.
  intros Hx. induction l as [|y l IH]; intros Hl Hnames Hsorted; simpl.
  - repeat constructor.
  - apply Forall_cons in Hl as [Hy Hl].
    apply Forall_cons in Hnames as [Hxy Hnames].
    apply StronglySorted_inv in Hsorted as [Hsorted Hyl].
    destruct (ltb x.2 y.2) eqn:Hlt.
    + constructor; [by apply IH|].
      rewrite insert_by_total_Permutation. constructor; [|done].
      split; [by apply ltb_asym|]. by rewrite Hlt.
    + constructor; [by constructor|]. constructor; [by split|].
      apply Forall_forall. intros z Hz.
      rewrite Forall_forall in Hl, Hnames, Hyl.
      split; [|intros _; by apply Hnames].
      apply (ltb_negtrans _ y.2); [done|done|by apply Hl|done|].
      by apply Hyl.
Qed.

Lemma sorted_by_total_ranked items :
  Forall (λ y, sortable y.2) items →
  StronglySorted (λ x y, str_lt x.1 y.1) items →
  StronglySorted (ranked ltb) (sorted_by_total ltb items).
Proof.
  induction items as [|x items IH]; intros Hitems Hnames; simpl.
  - constructor.
  - apply Forall_cons in Hitems as [Hx Hitems].
    apply StronglySorted_inv in Hnames as [Hnames Hxl].
    apply insert_by_total_ranked; [done| | |by apply IH].
    + by rewrite sorted_by_total_Permutation.
    + by rewrite sorted_by_total_Permutation.
Qed.

End Ranking.

Lemma display_category_totals_names {A : Type} `{Arith A}
    (service_data : gmap string (gmap string (gmap string A))) :
  StronglySorted (λ x y : string * A, str_lt x.1 y.1)
                 (display_category_totals service_data).
Proof.
  unfold display_category_totals.
  pose proof (StronglySorted_sorted (dom service_data)) as Hs.
  induction Hs as [|c l Hl IH Hc]; [constructor|].
  rewrite fmap_cons. constructor; [done|].
  apply Forall_fmap. by eapply Forall_impl.
Qed.

(** The order [<] of the binary64 numbers that are not NaN. *)
Lemma SFltb_order :
  ∃ r : float → Z * Z * Z,
    ∀ x y, is_nan x = false → is_nan y = false →
      (SFltb x y = true ↔
       ((r x).1.1 < (r y).1.1 ∨
        ((r x).1.1 = (r y).1.1 ∧
         ((r x).1.2 < (r y).1.2 ∨
          ((r x).1.2 = (r y).1.2 ∧ (r x).2 < (r y).2)))))%Z.
Proof.
  exists (λ x, match x with
               | S754_infinity true => (-2, 0, 0)
               | S754_finite true m e => (-1, - e, - Z.pos m)
               | S754_zero _ => (0, 0, 0)
               | S754_finite false m e => (1, e, Z.pos m)
               | S754_infinity false => (2, 0, 0)
               | S754_nan => (0, 0, 0)
               end%Z).
  intros x y Hx Hy. unfold SFltb, SFcompare.
  destruct x as [sx|sx| |sx mx ex], y as [sy|sy| |sy my ey]; try done;
    try destruct sx; try destruct sy; cbn [fst snd];
    try (split; [done|lia]); try (split; [lia|done]); try (split; intros; lia).
  - change (Pos.compare_cont Eq mx my) with (Pos.compare mx my).
    destruct (Z.compare_spec ex ey), (Pos.compare_spec mx my); simpl;
      split; (done || lia).
  - change (Pos.compare_cont Eq mx my) with (Pos.compare mx my).
    destruct (Z.compare_spec ex ey), (Pos.compare_spec mx my); simpl;
      split; (done || lia).
Qed.

Lemma SFltb_asym (x y : float) : SFltb x y = true → SFltb y x = false.
Proof.
  destruct SFltb_order as [r Hr]. intros Hlt.
  destruct (is_nan x) eqn:Hx; [by destruct x|].
  destruct (is_nan y) eqn:Hy; [by destruct x, y|].
  apply (Hr x y Hx Hy) in Hlt.
  destruct (SFltb y x) eqn:Hyx; [|done].
  apply (Hr y x Hy Hx) in Hyx. lia.
Qed.

Lemma SFltb_negtrans (x y z : float) :
  is_nan x = false → is_nan y = false → is_nan z = false →
  SFltb x y = false → SFltb y z = false → SFltb x z = false.
Proof.
  destruct SFltb_order as [r Hr]. intros Hx Hy Hz Hxy Hyz.
  destruct (SFltb x z) eqn:Hxz; [|done].
  apply (Hr x z Hx Hz) in Hxz.
  assert (¬ SFltb x y = true) as Hnxy by by rewrite Hxy.
  assert (¬ SFltb y z = true) as Hnyz by by rewrite Hyz.
  rewrite (Hr x y Hx Hy) in Hnxy. rewrite (Hr y z Hy Hz) in Hnyz. lia.
Qed.

(** X15: when no category total is NaN, the ranking behind "Top Categories
    by Total Amount" is a rearrangement of the category totals in which
    every entry has a total not less than the totals after it, entries of
    equal total stand in the order of their names, and the lines printed are
    its first five entries, or all of them when there are fewer. *)
Theorem top_categories_ranked
    (service_data : gmap string (gmap string (gmap string float))) :
  Forall (λ item, is_nan item.2 = false)
         (display_category_totals service_data) →
  let ranking := sorted_by_total SFltb (display_category_totals service_data) in
  ranking ≡ₚ display_category_totals service_data ∧
  StronglySorted (ranked SFltb) ranking ∧
  top_lines SFltb (display_category_totals service_data)
  = imap (λ i item, RTop (S i) item.1 item.2) (take 5 ranking) ∧
  length (top_lines SFltb (display_category_totals service_data))
  = 5 `min` size service_data.
Proof.
  intros Hnan. simpl. split_and!.
  - apply sorted_by_total_Permutation.
  - apply (sorted_by_total_ranked SFltb (λ x, is_nan x = false)).
    + intros x y _ _. apply SFltb_asym.
    + apply SFltb_negtrans.
    + done.
    + apply display_category_totals_names.
  - done.
  - unfold top_lines. rewrite length_imap, length_take.
    rewrite sorted_by_total_Permutation. unfold display_category_totals.
    by rewrite length_fmap, length_sorted, size_dom.
Qed.
(** ** The totals of the single-file report *)

(** *** Without rounding *)

Section ExactDisplay.
Context {A : Type} `{ExactArith A}.

Lemma foldl_add_acc (a : A) (l : list A) :
  foldl add a l = add a (sum_list l).
Proof.
  unfold sum_list. revert a. induction l as [|x l IH]; intros a; simpl.
  - by rewrite add_zero_r.
  - by rewrite IH, (IH (add zero x)), add_zero_l, add_assoc.
Qed.

Lemma sum_list_cons (x : A) (l : list A) :
  sum_list (x :: l) = add x (sum_list l).
Proof.
  unfold sum_list at 1. cbn [foldl]. by rewrite foldl_add_acc, add_zero_l.
Qed.

Lemma sum_list_Permutation (l l' : list A) :
  l ≡ₚ l' → sum_list l = sum_list l'.
Proof.
  induction 1 as [|x l l' _ IH|x y l|l l' l'' _ IH1 _ IH2].
  - done.
  - by rewrite !sum_list_cons, IH.
  - by rewrite !sum_list_cons, !add_assoc, (add_comm y x).
  - by rewrite IH1.
Qed.

Lemma msum_sum_list {V : Type} (g : V → A) (d : gmap string V) :
  msum g d = sum_list (g <$> (map_to_list d).*2).
Proof.
  unfold msum. rewrite map_fold_foldr.
  induction (map_to_list d) as [|[k x] l IH]; [done|].
  rewrite !fmap_cons, sum_list_cons. cbn [foldr uncurry].
  rewrite IH. apply add_comm.
Qed.

Lemma msum_ext {V : Type} (g g' : V → A) (d : gmap string V) :
  (∀ x, g x = g' x) → msum g d = msum g' d.
Proof.
  intros Hg. rewrite !msum_sum_list. f_equal.
  apply list_fmap_ext. intros _ x _. apply Hg.
Qed.

Lemma sorted_dom_Permutation {V : Type} (d : gmap string V) :
  sorted (dom d) ≡ₚ (map_to_list d).*1.
Proof.
  rewrite sorted_Permutation.
  apply NoDup_Permutation;
    [apply NoDup_elements|apply NoDup_fst_map_to_list|].
  intros k. rewrite elem_of_elements, elem_of_dom, list_elem_of_fmap. split.
  - intros [x Hx]. exists (k, x). split; [done|].
    by apply elem_of_map_to_list.
  - intros ([k' x] & -> & Hx). apply elem_of_map_to_list in Hx. by eexists.
Qed.

Lemma values_by_key {V : Type} (g : V → A) (dflt : V) (d : gmap string V) :
  (λ k, g (default dflt (d !! k))) <$> (map_to_list d).*1
  = g <$> (map_to_list d).*2.
Proof.
  rewrite <- !list_fmap_compose. apply list_fmap_ext.
  intros i [k x] Hi. simpl.
  apply list_elem_of_lookup_2, elem_of_map_to_list in Hi. by rewrite Hi.
Qed.

(** A sum over the sorted keys is the sum over the dictionary. *)
Lemma sum_sorted_msum {V : Type} (g : V → A) (dflt : V) (d : gmap string V) :
  sum_list ((λ k, g (default dflt (d !! k))) <$> sorted (dom d)) = msum g d.
Proof.
  rewrite msum_sum_list, <- (values_by_key g dflt).
  apply sum_list_Permutation, fmap_Permutation, sorted_dom_Permutation.
Qed.

Lemma foldl_sum_list {X : Type} (g : X → A) (l : list X) (a : A) :
  foldl (λ acc x, add acc (g x)) a l = foldl add a (g <$> l).
Proof.
  revert a. induction l as [|x l IH]; intros a; [done|].
  rewrite fmap_cons. cbn [foldl]. apply IH.
Qed.

Lemma subcategory_total_msum (units : gmap string A) :
  subcategory_total units = msum id units.
Proof.
  unfold subcategory_total.
  rewrite (foldl_sum_list (λ u, default zero (units !! u))).
  apply (sum_sorted_msum id zero).
Qed.

Lemma display_category_total_exact
    (subcategories : gmap string (gmap string A)) :
  display_category_total subcategories = category_total subcategories.
Proof.
  rewrite category_total_msum. unfold display_category_total.
  rewrite (foldl_sum_list
             (λ s, subcategory_total (default ∅ (subcategories !! s)))).
  fold (sum_list ((λ s, subcategory_total (default ∅ (subcategories !! s)))
                    <$> sorted (dom subcategories))).
  rewrite (sum_sorted_msum subcategory_total ∅).
  apply msum_ext, subcategory_total_msum.
Qed.

Lemma display_grand_total_exact
    (service_data : gmap string (gmap string (gmap string A))) :
  sum_list (display_category_totals service_data).*2
  = sum_values (calculate_category_totals service_data).
Proof.
  rewrite sum_values_totals. unfold display_category_totals.
  rewrite <- list_fmap_compose.
  rewrite <- (sum_sorted_msum (msum (msum id)) ∅).
  f_equal. apply list_fmap_ext. intros _ c _. simpl.
  by rewrite display_category_total_exact, category_total_msum.
Qed.

End ExactDisplay.
(** *** On integer amounts *)

Section DisplaySimulation.
Context {A : Type} `{Arith A}.
Variable φ : Z → A.
Variable bound : Z.
Hypothesis φ_zero : φ 0 = zero.
Hypothesis φ_add : ∀ x y : Z,
  (Z.abs x < bound)%Z → (Z.abs y < bound)%Z → (Z.abs (x + y) < bound)%Z →
  add (φ x) (φ y) = φ (x + y)%Z.

Lemma foldl_list_budgeted {X : Type} (gW : X → Z * Z) (l : list X)
    (a : Z * Z) :
  Forall (λ x, budgeted (gW x)) l → budgeted a →
  let r := foldl (λ acc x, add acc (gW x)) a l in
  budgeted r ∧ (a.2 ≤ r.2)%Z ∧ Forall (λ x, ((gW x).2 ≤ r.2)%Z) l.
Proof.
  intros Hl. revert a. induction Hl as [|x l Hx Hl IH]; intros a Ha; simpl.
  - split_and!; [done|lia|constructor].
  - pose proof (budgeted_weight _ Hx) as Hwx.
    pose proof (budgeted_weight _ Ha) as Hwa.
    destruct (IH (add a (gW x))) as (Hb & Hw & Hall);
      [by apply budgeted_add|].
    simpl in *. split_and!; [done|lia|].
    constructor; [lia|done].
Qed.

Lemma foldl_list_embed {X : Type} (gW : X → Z * Z) (gA : X → A)
    (l : list X) (a : Z * Z) (aA : A) :
  aA = embed φ a →
  Forall (λ x, budgeted (gW x)) l → budgeted a →
  (∀ x, x ∈ l → ((gW x).2 < bound)%Z → gA x = embed φ (gW x)) →
  ((foldl (λ acc x, add acc (gW x)) a l).2 < bound)%Z →
  foldl (λ acc x, add acc (gA x)) aA l
  = embed φ (foldl (λ acc x, add acc (gW x)) a l).
Proof.
  intros -> Hl. revert a.
  induction Hl as [|x l Hx Hl IH]; intros a Ha Hg Hb; [done|].
  cbn [foldl] in *.
  destruct (foldl_list_budgeted gW l (add a (gW x)) Hl)
    as (_ & Hw & _); [by apply budgeted_add|].
  pose proof (budgeted_weight _ Ha) as Hwa.
  pose proof (budgeted_weight _ Hx) as Hwx.
  assert (add (embed φ a) (gA x) = embed φ (add a (gW x))) as ->.
  { rewrite Hg; [|apply elem_of_cons; by left|simpl in *; lia].
    apply (embed_add φ bound φ_add); [done|done|simpl in *; lia]. }
  apply IH; [by apply budgeted_add| |done].
  intros y Hy. apply Hg. apply elem_of_cons. by right.
Qed.

Lemma default_budgeted (units : gmap string (Z * Z)) (u : string) :
  map_Forall (λ _, budgeted) units → budgeted (default zero (units !! u)).
Proof.
  intros Hunits. destruct (units !! u) as [p|] eqn:Hu; simpl.
  - by eapply Hunits.
  - apply budgeted_zero.
Qed.

Lemma subcategory_total_budgeted (units : gmap string (Z * Z)) :
  map_Forall (λ _, budgeted) units → budgeted (subcategory_total units).
Proof.
  intros Hunits. unfold subcategory_total.
  apply (foldl_list_budgeted (λ u, default zero (units !! u)));
    [|apply budgeted_zero].
  apply Forall_forall. intros u _. by apply default_budgeted.
Qed.

Lemma subcategory_total_embed (units : gmap string (Z * Z)) :
  map_Forall (λ _, budgeted) units →
  ((subcategory_total units).2 < bound)%Z →
  subcategory_total (embed φ <$> units) = embed φ (subcategory_total units).
Proof.
  intros Hunits Hb. unfold subcategory_total. rewrite dom_fmap_L.
  apply (foldl_list_embed (λ u, default zero (units !! u))).
  - symmetry. by apply embed_zero.
  - apply Forall_forall. intros u _. by apply default_budgeted.
  - apply budgeted_zero.
  - intros u _ _. rewrite lookup_fmap.
    destruct (units !! u); simpl; [done|]. symmetry. by apply embed_zero.
  - done.
Qed.

Lemma subcategory_total_empty {B : Type} `{Arith B} :
  subcategory_total (∅ : gmap string B) = zero.
Proof. unfold subcategory_total. by rewrite dom_empty_L, sorted_empty. Qed.

Lemma default_subcategory_budgeted
    (subcategories : gmap string (gmap string (Z * Z))) (s : string) :
  map_Forall (λ _, map_Forall (λ _, budgeted)) subcategories →
  budgeted (subcategory_total (default ∅ (subcategories !! s))).
Proof.
  intros Hsubs. destruct (subcategories !! s) as [units|] eqn:Hs; simpl.
  - apply subcategory_total_budgeted. by eapply Hsubs.
  - rewrite subcategory_total_empty. apply budgeted_zero.
Qed.

Lemma display_category_total_budgeted
    (subcategories : gmap string (gmap string (Z * Z))) :
  map_Forall (λ _, map_Forall (λ _, budgeted)) subcategories →
  budgeted (display_category_total subcategories).
Proof.
  intros Hsubs. unfold display_category_total.
  apply (foldl_list_budgeted
           (λ s, subcategory_total (default ∅ (subcategories !! s))));
    [|apply budgeted_zero].
  apply Forall_forall. intros s _. by apply default_subcategory_budgeted.
Qed.

Lemma display_category_total_embed
    (subcategories : gmap string (gmap string (Z * Z))) :
  map_Forall (λ _, map_Forall (λ _, budgeted)) subcategories →
  ((display_category_total subcategories).2 < bound)%Z →
  display_category_total (fmap (M:=gmap string) (embed φ) <$> subcategories)
  = embed φ (display_category_total subcategories).
Proof.
  intros Hsubs Hb. unfold display_category_total. rewrite dom_fmap_L.
  apply (foldl_list_embed
           (λ s, subcategory_total (default ∅ (subcategories !! s)))).
  - symmetry. by apply embed_zero.
  - apply Forall_forall. intros s _. by apply default_subcategory_budgeted.
  - apply budgeted_zero.
  - intros s _ Hw. rewrite lookup_fmap.
    destruct (subcategories !! s) as [units|] eqn:Hs; simpl in *.
    + apply subcategory_total_embed; [by eapply Hsubs|done].
    + rewrite !subcategory_total_empty. symmetry. by apply embed_zero.
  - done.
Qed.

Lemma sum_display_category_totals {B : Type} `{Arith B}
    (service_data : gmap string (gmap string (gmap string B))) :
  sum_list (display_category_totals service_data).*2
  = foldl (λ acc c,
             add acc (display_category_total
                        (default ∅ (service_data !! c))))
          zero (sorted (dom service_data)).
Proof.
  unfold sum_list, display_category_totals.
  generalize (zero : B). induction (sorted (dom service_data)) as [|c l IH];
    intros a; [done|].
  rewrite !fmap_cons. cbn [foldl]. apply IH.
Qed.

Lemma default_category_budgeted
    (service_data : gmap string (gmap string (gmap string (Z * Z))))
    (c : string) :
  map_Forall (λ _, map_Forall (λ _, map_Forall (λ _, budgeted)))
             service_data →
  budgeted (display_category_total (default ∅ (service_data !! c))).
Proof.
  intros Hsd. apply display_category_total_budgeted.
  destruct (service_data !! c) as [subs|] eqn:Hc; simpl.
  - by eapply Hsd.
  - apply map_Forall_empty.
Qed.

(** On numbers [φ k] whose budgets add up to less than [bound], the display
    adds up the category totals of [calculate_category_totals], and its
    grand total is the number of the sum. *)
Lemma display_totals_embed
    (service_data : gmap string (gmap string (gmap string (Z * Z)))) :
  map_Forall (λ _, map_Forall (λ _, map_Forall (λ _, budgeted)))
             service_data →
  ((sum_values (calculate_category_totals service_data)).2 < bound)%Z →
  let image := fmap (M:=gmap string) (fmap (M:=gmap string) (embed φ))
                 <$> service_data in
  (∀ c subcategories, image !! c = Some subcategories →
     display_category_total subcategories = category_total subcategories) ∧
  sum_list (display_category_totals image).*2
  = embed φ (sum_values (calculate_category_totals service_data)).
Proof.
  intros Hsd Hb. simpl.
  rewrite <- display_grand_total_exact in Hb |- *.
  rewrite sum_display_category_totals in Hb.
  rewrite !sum_display_category_totals.
  destruct (foldl_list_budgeted
              (λ c, display_category_total (default ∅ (service_data !! c)))
              (sorted (dom service_data)) zero) as (_ & _ & Hall).
  { apply Forall_forall. intros c _. by apply default_category_budgeted. }
  { apply budgeted_zero. }
  cbv zeta in Hall. rewrite Forall_forall in Hall.
  split.
  - intros c subs Hc. rewrite lookup_fmap in Hc.
    destruct (service_data !! c) as [subsW|] eqn:HcW; [|done].
    simpl in Hc. simplify_eq.
    assert (((display_category_total subsW).2 < bound)%Z) as Hw.
    { assert (c ∈ sorted (dom service_data)) as Hin
        by (apply elem_of_sorted, elem_of_dom; by eexists).
      apply Hall in Hin. rewrite HcW in Hin.
      change (default ∅ (Some subsW)) with subsW in Hin. lia. }
    rewrite display_category_total_embed by (done || by eapply Hsd).
    rewrite display_category_total_exact in Hw |- *.
    symmetry. apply (category_total_embed φ bound φ_zero φ_add);
      [by eapply Hsd|done].
  - rewrite dom_fmap_L.
    apply (foldl_list_embed
             (λ c, display_category_total (default ∅ (service_data !! c)))).
    + symmetry. by apply embed_zero.
    + apply Forall_forall. intros c _. by apply default_category_budgeted.
    + apply budgeted_zero.
    + intros c Hc Hw. rewrite lookup_fmap.
      destruct (service_data !! c) as [subsW|] eqn:HcW; simpl in *.
      * apply display_category_total_embed; [by eapply Hsd|done].
      * unfold display_category_total.
        rewrite !dom_empty_L, !sorted_empty. symmetry. by apply embed_zero.
    + done.
Qed.

End DisplaySimulation.

(** X16: when the amounts of the rows the analysis keeps are integers whose
    absolute values add up to less than [2^53], the category totals the
    single-file display adds up from its subcategory totals are those of
    [calculate_category_totals], and its grand total is the float of the sum
    of the integers. *)
Theorem display_totals_binary64 (parse : string → option float)
    (df : list (row float)) (ks : list Z) :
  surviving_amounts parse df = of_Z <$> ks →
  (abs_sum ks < 2 ^ 53)%Z →
  let service_data := analyze_azure_services parse df in
  (∀ c subcategories, service_data !! c = Some subcategories →
     display_category_total subcategories = category_total subcategories) ∧
  sum_list (display_category_totals service_data).*2 = of_Z (Z_sum ks).
Proof.
  intros Hks Hb. simpl. rewrite <- df_clean_amounts in Hks.
  unfold analyze_azure_services.
  destruct (retag_embed of_Z (df_clean parse df) ks Hks)
    as (Hes & Hall & Hsum).
  assert (length (df_clean parse df) = length ks) as Hlen.
  { by rewrite <- (length_fmap e_amount), Hks, length_fmap. }
  pose proof (retag_value_sum (df_clean parse df) ks Hlen) as Hval.
  set (es := zip_with retag (df_clean parse df) (weigh <$> ks)) in *.
  rewrite <- Hes. rewrite <- Hsum in Hb.
  destruct (aggregate_entries_embed of_Z (2 ^ 53) of_Z_zero add_of_Z es)
    as [-> Hleaves]; [done..|].
  assert (sum_values (calculate_category_totals (aggregate_entries es))
          = sum_list (e_amount <$> es)) as Hexact.
  { unfold aggregate_entries. rewrite sum_values_foldl.
    unfold calculate_category_totals, sum_values, sum_list.
    by rewrite fmap_empty, map_fold_empty. }
  destruct (display_totals_embed of_Z (2 ^ 53) of_Z_zero add_of_Z
              (aggregate_entries es)) as [Hcat Hgrand].
  { by eapply leaves_bounded_Forall. }
  { rewrite Hexact. unfold sum_list. rewrite foldl_add_weight. simpl. lia. }
  split; [exact Hcat|].
  rewrite Hgrand, Hexact. unfold embed, sum_list.
  by rewrite foldl_add_value, <- Hval.
Qed.
(** ** From the files to the reports *)

Section Files.
Context {A : Type} `{Arith A}.
Variable ltb : A → A → bool.
Variable parse : string → option A.
Variable path_exists : string → bool.
Variable read_csv : string → csv A.
Variable basename : string → string.

Lemma analyze_csv_is_Some (file : csv A) :
  is_not_None (analyze_csv parse file) = true ↔ readable file.
Proof.
  unfold analyze_csv, readable. destruct file as [| |columns categories df]; [done..|].
  by destruct (missing_columns columns).
Qed.

(** X17: in comparison mode on two paths that exist, for files whose
    category column holds texts, [main] prints the comparison exactly when
    both files have the four required columns, a file without any usable
    row included; otherwise it prints the failure message. *)
Theorem main_dual_mode (program old_csv_path new_csv_path : string) :
  path_exists old_csv_path = true → path_exists new_csv_path = true →
  text_categories (read_csv old_csv_path) →
  text_categories (read_csv new_csv_path) →
  (readable (read_csv old_csv_path) ∧ readable (read_csv new_csv_path) →
   ∃ blocks,
     main ltb parse path_exists read_csv basename program
          [old_csv_path; new_csv_path]
     = Ok [Print (MDualMode old_csv_path new_csv_path);
           Comparison (basename old_csv_path) (basename new_csv_path) blocks;
           Print MComparisonComplete]) ∧
  (¬ (readable (read_csv old_csv_path) ∧ readable (read_csv new_csv_path)) →
   main ltb parse path_exists read_csv basename program
        [old_csv_path; new_csv_path]
   = Ok [Print (MDualMode old_csv_path new_csv_path);
         Print MComparisonFailed]).
Proof.
  intros Hold Hnew Htold Htnew. unfold main. rewrite Hold, Hnew. simpl.
  rewrite (mixed_keys_texts parse) by done.
  rewrite <- !analyze_csv_is_Some.
  destruct (analyze_csv parse (read_csv old_csv_path)) as [old|],
    (analyze_csv parse (read_csv new_csv_path)) as [new|]; simpl.
  - split; [|by intros []]. intros _. rewrite display_dicts. by eexists.
  - split; [by intros [_ ?]|done].
  - split; [by intros [? _]|done].
  - split; [by intros [? _]|done].
Qed.

(** X18: for two frames that have the four columns and whose category
    columns hold texts, a service is missing exactly when the old frame has
    a row with that category and a numeric amount and the new frame has
    none, and added in the mirrored case. *)
Theorem diff_of_files (old_columns new_columns : list string)
    (old_df new_df : list (row A)) :
  missing_columns old_columns = [] → missing_columns new_columns = [] →
  ∃ old new,
    analyze_csv parse (CsvFrame old_columns Texts old_df) = Some old ∧
    analyze_csv parse (CsvFrame new_columns Texts new_df) = Some new ∧
    ∀ c,
      (c ∈ (compare_service_data (Some old) (Some new)).1
       ↔ (∃ r, r ∈ old_df ∧ usable_row parse c r)
         ∧ ¬ ∃ r, r ∈ new_df ∧ usable_row parse c r) ∧
      (c ∈ (compare_service_data (Some old) (Some new)).2
       ↔ (∃ r, r ∈ new_df ∧ usable_row parse c r)
         ∧ ¬ ∃ r, r ∈ old_df ∧ usable_row parse c r).
Proof.
  intros Hold Hnew. unfold analyze_csv. rewrite Hold, Hnew. cbn [nonempty].
  eexists _, _. split_and!; [done..|]. intros c.
  unfold compare_service_data. cbn [fst snd].
  rewrite !elem_of_sorted, !elem_of_difference, !elem_of_categories_of.
  rewrite !(has_category_analyze parse). done.
Qed.

(** X19: when the analysis of a single file in the window gives nothing
    to show, the general text "Failed to analyze the CSV file..." is shown
    exactly for a file that has the four columns but no row with a category
    and a numeric amount; in the other cases the error of the analysis is
    shown. *)
Theorem window_single_fallback (csv_file_path : string) (file : csv A) :
  let result := AzureAnalyzerGUI.analyze_azure_services parse csv_file_path file in
  truthy result.1 = false →
  (AzureAnalyzerGUI.single_error_text result.2
   = "Failed to analyze the CSV file. Please check the file format."
   ↔ readable file ∧ ¬ usable parse file).
Proof.
  unfold AzureAnalyzerGUI.analyze_azure_services, readable, usable.
  destruct file as [| |columns categories df]; cbv zeta.
  - intros _. split; [done|by intros []].
  - intros _. split; [done|by intros []].
  - destruct (missing_columns columns) eqn:Hm; cbn [nonempty fst snd].
    + rewrite truthy_analyze. intros Hempty.
      split; [|done]. intros _. split; [done|]. intros [_ Hne].
      by destruct (df_clean parse df).
    + intros _. split; [done|by intros []].
Qed.

End Files.
(** * The reports on concrete inputs *)

Example display_scenario :
  display_service_analysis SFltb
    (Some (analyze_azure_services no_text scenario_rows))
  = [RCategory "Compute"; RSubcategory "VM"; RUnit "Hours" (of_Z 15);
     RSubcategoryTotal (of_Z 15); RCategoryTotal (of_Z 15);
     RCategory "Storage"; RSubcategory "N/A"; RUnit "GB" (of_Z 3);
     RSubcategoryTotal (of_Z 3); RCategoryTotal (of_Z 3);
     RCategories 2; RSubcategories 2; RUnitTypes 2; RGrandTotal (of_Z 18);
     RTop 1 "Compute" (of_Z 15); RTop 2 "Storage" (of_Z 3)].
Proof. vm_compute. reflexivity. Qed.

Example display_nothing :
  display_service_analysis SFltb None = [RNoData] ∧
  display_service_analysis SFltb (Some ∅) = [RNoData].
Proof. split; vm_compute; reflexivity. Qed.

Lemma main_single_mode_witness :
  (∃ lines,
     main SFltb no_text on_disk scenario_files id "analyzer.py" ["usage.csv"]
     = Ok [Print MSingleMode; Analysis lines; Print MAnalysisComplete] ∧
     RNoData ∉ lines) ∧
  main SFltb no_text on_disk scenario_files id "analyzer.py" ["empty.csv"]
  = Ok [Print MSingleMode; Print MAnalysisFailed].
Proof.
  split.
  - apply (main_single_mode SFltb no_text on_disk scenario_files id
             "analyzer.py" "usage.csv"); [reflexivity|].
    split; [reflexivity|]. vm_compute. discriminate.
  - apply (main_single_mode SFltb no_text on_disk scenario_files id
             "analyzer.py" "empty.csv"); [reflexivity|].
    intros [_ Hrows]. by apply Hrows.
Defined.

Lemma main_dual_mode_witness :
  ∃ blocks,
    main SFltb no_text on_disk scenario_files id "analyzer.py"
         ["empty.csv"; "usage.csv"]
    = Ok [Print (MDualMode "empty.csv" "usage.csv");
          Comparison "empty.csv" "usage.csv" blocks;
          Print MComparisonComplete].
Proof.
  apply (main_dual_mode SFltb no_text on_disk scenario_files id
           "analyzer.py" "empty.csv" "usage.csv");
    [reflexivity|reflexivity|reflexivity|reflexivity|].
  split; reflexivity.
Defined.

Lemma scenario_files_texts (path : string) :
  text_categories (scenario_files path).
Proof.
  unfold scenario_files. repeat case_bool_decide; reflexivity.
Qed.

Lemma main_never_raises_witness :
  ∃ out,
    main SFltb no_text on_disk scenario_files id "analyzer.py"
         ["usage.csv"; "empty.csv"]
    = Ok out.
Proof.
  exact (main_never_raises_on_text_categories SFltb no_text on_disk
           scenario_files id "analyzer.py" ["usage.csv"; "empty.csv"]
           scenario_files_texts).
Defined.

(** A file whose categories are numbers compared with a file whose
    categories are texts: [sorted(all_categories)] raises. *)
Example main_mixed_keys_raise :
  main SFltb no_text mixed_on_disk mixed_files id "analyzer.py"
       ["numbers.csv"; "usage.csv"]
  = Raise TypeError.
Proof. vm_compute. reflexivity. Qed.

Lemma appended_rows_witness :
  ∃ old new,
    analyze_csv no_text
      (CsvFrame required_columns Texts (take 2 scenario_rows)) = Some old ∧
    analyze_csv no_text
      (CsvFrame required_columns Texts
         (take 2 scenario_rows ++ drop 2 scenario_rows)) = Some new ∧
    (compare_service_data (Some old) (Some new)).1 = [].
Proof.
  exact (appended_rows_remove_no_service no_text required_columns
           (take 2 scenario_rows) (drop 2 scenario_rows) eq_refl).
Defined.

Lemma diff_of_files_witness :
  ∃ old new,
    analyze_csv no_text
      (CsvFrame required_columns Texts (take 2 scenario_rows)) = Some old ∧
    analyze_csv no_text
      (CsvFrame required_columns Texts (drop 2 scenario_rows)) = Some new ∧
    ∀ c,
      (c ∈ (compare_service_data (Some old) (Some new)).1
       ↔ (∃ r, r ∈ take 2 scenario_rows ∧ usable_row no_text c r)
         ∧ ¬ ∃ r, r ∈ drop 2 scenario_rows ∧ usable_row no_text c r) ∧
      (c ∈ (compare_service_data (Some old) (Some new)).2
       ↔ (∃ r, r ∈ drop 2 scenario_rows ∧ usable_row no_text c r)
         ∧ ¬ ∃ r, r ∈ take 2 scenario_rows ∧ usable_row no_text c r).
Proof.
  exact (diff_of_files no_text required_columns required_columns
           (take 2 scenario_rows) (drop 2 scenario_rows) eq_refl eq_refl).
Defined.

Example diff_of_scenario_halves :
  compare_service_data
    (analyze_csv no_text
       (CsvFrame required_columns Texts (take 2 scenario_rows)))
    (analyze_csv no_text
       (CsvFrame required_columns Texts (drop 2 scenario_rows)))
  = (["Compute"], ["Storage"]).
Proof. vm_compute. reflexivity. Qed.

Lemma compute_only_names : names_accepted no_tag compute_only.
Proof.
  intros c subs Hc. unfold compute_only in Hc.
  apply lookup_singleton_Some in Hc as [<- <-]. split; [reflexivity|].
  intros s Hs. apply lookup_singleton_is_Some in Hs as <-. reflexivity.
Qed.

Lemma no_service_changes_witness :
  ∃ changes sections blocks lines,
    generate_comparison_pdf fmt2_integer no_tag (Some compute_only)
                            (Some compute_only) "old.csv" "new.csv"
    = Ok (changes, sections) ∧
    display_comparison_and_changes (Some compute_only) (Some compute_only)
    = Ok (blocks, lines) ∧
    (changes = [CNoChanges] ↔ dom compute_only = dom compute_only) ∧
    (lines = [CNoMissing; CNoAdded] ↔ dom compute_only = dom compute_only).
Proof.
  exact (no_service_changes_iff_same_categories fmt2_integer no_tag
           compute_only compute_only "old.csv" "new.csv" eq_refl eq_refl
           compute_only_names compute_only_names).
Defined.

Lemma self_comparison_witness :
  ∃ changes sections,
    generate_comparison_pdf fmt2_integer no_tag (Some compute_only)
                            (Some compute_only) "old.csv" "new.csv"
    = Ok (changes, sections) ∧
    ∀ c tables s table row,
      (c, tables) ∈ sections → (s, table) ∈ tables → row ∈ table →
      row = ["Unit"; "Old Amount"; "New Amount"; "Change"] ∨
      ∃ u x, lookup3 compute_only c s u = Some x ∧
             row = [u; fmt2_integer x; fmt2_integer x; fmt2_integer zero].
Proof.
  apply (self_comparison_no_change fmt2_integer no_tag compute_only
           "old.csv" "new.csv");
    [|reflexivity|reflexivity|exact compute_only_names].
  intros c s u x Hl. unfold lookup3, compute_only in Hl.
  destruct (decide ("Compute" = c)) as [<-|Hc];
    [rewrite lookup_singleton_eq in Hl
    |by rewrite lookup_singleton_ne in Hl].
  destruct (decide ("VM" = s)) as [<-|Hs];
    [rewrite lookup_singleton_eq in Hl
    |by rewrite lookup_singleton_ne in Hl].
  apply lookup_singleton_Some in Hl as [_ <-]. reflexivity.
Defined.

Lemma window_comparison_errors_witness :
  ∃ rest,
    rest ≠ "" ∧
    AzureAnalyzerGUI.comparison_error_text
      (AzureAnalyzerGUI.analyze_azure_services no_text "old.csv" CsvNotFound).2
      (AzureAnalyzerGUI.analyze_azure_services no_text "usage.csv"
         (scenario_files "usage.csv")).2
    = "Analysis errors:" +:+ AzureAnalyzerGUI.newline +:+ rest.
Proof.
  exact (window_comparison_errors_are_named no_text "old.csv" "usage.csv"
           CsvNotFound (scenario_files "usage.csv") eq_refl).
Defined.

Lemma window_single_fallback_witness :
  AzureAnalyzerGUI.single_error_text
    (AzureAnalyzerGUI.analyze_azure_services no_text "empty.csv"
       (scenario_files "empty.csv")).2
  = "Failed to analyze the CSV file. Please check the file format."
  ↔ readable (scenario_files "empty.csv")
    ∧ ¬ usable no_text (scenario_files "empty.csv").
Proof.
  exact (window_single_fallback no_text "empty.csv"
           (scenario_files "empty.csv") eq_refl).
Defined.

Lemma top_categories_witness :
  let service_data := analyze_azure_services no_text scenario_rows in
  let ranking :=
    sorted_by_total SFltb (display_category_totals service_data) in
  ranking ≡ₚ display_category_totals service_data ∧
  StronglySorted (ranked SFltb) ranking ∧
  top_lines SFltb (display_category_totals service_data)
  = imap (λ i item, RTop (S i) item.1 item.2) (take 5 ranking) ∧
  length (top_lines SFltb (display_category_totals service_data))
  = 5 `min` size service_data.
Proof.
  apply (top_categories_ranked
           (analyze_azure_services no_text scenario_rows)).
  vm_compute. repeat constructor.
Defined.

Lemma display_totals_binary64_witness :
  let service_data := analyze_azure_services no_text scenario_rows in
  (∀ c subcategories, service_data !! c = Some subcategories →
     display_category_total subcategories = category_total subcategories) ∧
  sum_list (display_category_totals service_data).*2
  = of_Z (Z_sum [10; 5; 3]%Z).
Proof.
  assert (surviving_amounts no_text scenario_rows = of_Z <$> [10; 5; 3]%Z)
    as Hks by reflexivity.
  assert (abs_sum [10; 5; 3]%Z < 2 ^ 53)%Z as Hb by reflexivity.
  exact (display_totals_binary64 no_text scenario_rows [10; 5; 3]%Z Hks Hb).
Defined.

Example self_comparison_table :
  table_data fmt2_integer {[ "Hours" := of_Z 15 ]} {[ "Hours" := of_Z 15 ]}
  = [["Unit"; "Old Amount"; "New Amount"; "Change"];
     ["Hours"; "15.00"; "15.00"; "0.00"]].
Proof. vm_compute. reflexivity. Qed.
